(** * Dual seven-segment dice roller (dice_roller.ino)

    A shallow embedding of the sketch [dice_roller.ino] and the proofs of its
    behavioural properties.

    The sketch runs on an Arduino Uno (AVR): [int] is a 16-bit two's
    complement integer, [unsigned int] is 16 bits, [long] and
    [unsigned long] are 32 bits.  Machine integers are represented by [Z]
    and every conversion or arithmetic operation the sketch performs is
    written with its wrap-around.

    The hardware is observed through a [world]: the level last written to
    every output pin, the level present on every input pin, the number of
    values drawn so far from the pseudo-random generator, and the
    chronological list of the calls made to the output primitives of the
    Arduino core. *)

From Stdlib Require Import ZArith QArith List Lia.
From stdpp Require Import base gmap list.
Import ListNotations.

Local Open Scope Z_scope.

(** ** Machine integers *)

Definition INT_MAX : Z := 32767.
Definition INT_MIN : Z := -32768.

(** Conversion to [int] (16 bits, two's complement). *)
Definition to_int (z : Z) : Z := (z + 32768) mod 65536 - 32768.

(** Conversion to [unsigned int] (16 bits). *)
Definition to_uint (z : Z) : Z := z mod 65536.

(** Conversion to [uint8_t] (8 bits), the type of the pin and value
    parameters of the core. *)
Definition to_uint8 (z : Z) : Z := z mod 256.

(** A pin number of the core: a value of type [uint8_t]. *)
Definition pin_number (p : Z) : Prop := 0 <= p < 256.

(** Conversion to [unsigned long] (32 bits). *)
Definition to_ulong (z : Z) : Z := z mod 4294967296.

Definition int_add (a b : Z) : Z := to_int (a + b).
Definition int_mul (a b : Z) : Z := to_int (a * b).

(** A value of type [int]. *)
Definition in_int (z : Z) : Prop := INT_MIN <= z <= INT_MAX.

(** [int] to [double]: every [int] is represented exactly, and so is its
    product with one half, hence exact rationals stand for the doubles the
    sketch computes. *)
Definition int_to_double (i : Z) : Q := inject_Z i.

(** [double] to [int]: the fractional part is discarded (truncation toward
    zero). *)
Definition double_to_int (q : Q) : Z := to_int (Z.quot (Qnum q) (Z.pos (Qden q))).

(** ** Hardware configuration (lines 47-55) *)

Definition seg1_pins : list Z := [3; 4; 5].
Definition seg2_pins : list Z := [8; 9; 10].
Definition button1 : Z := 2.
Definition button2 : Z := 11.
Definition buzzerPin : Z := 6.

Definition LOW : Z := 0.
Definition HIGH : Z := 1.

(** ** The observable world *)

(** Calls to the output primitives of the Arduino core. *)
Inductive event : Type :=
| EWrite (pin val : Z)          (* digitalWrite(pin, val) *)
| ETone (pin freq dur : Z)      (* tone(pin, freq, dur)   *)
| ENoTone (pin : Z)             (* noTone(pin)            *)
| EDelay (ms : Z).              (* delay(ms)              *)

Record world : Type := mkWorld {
  levels : gmap Z bool;   (* last digitalWrite of the sketch: [true] is HIGH *)
  inputs : Z -> bool;     (* input pins: [true] is HIGH *)
  draws : nat;            (* values drawn from the generator so far *)
  trace : list event      (* calls made so far, oldest first *)
}.

(** The effect of one call on the world. *)
Definition perform (e : event) (w : world) : world :=
  {| levels := match e with
               | EWrite pin val => <[pin := negb (val =? LOW)]> (levels w)
               | _ => levels w
               end;
     inputs := inputs w;
     draws := draws w;
     trace := trace w ++ [e] |}.

Definition performs (es : list event) (w : world) : world :=
  fold_left (fun w' e => perform e w') es w.

(** [n] more values have been drawn from the generator. *)
Definition consume (n : nat) (w : world) : world :=
  {| levels := levels w;
     inputs := inputs w;
     draws := (draws w + n)%nat;
     trace := trace w |}.

(** ** Computations *)

Inductive fault : Type :=
| OutOfBounds   (* an array is read outside its bounds *)
| OutOfFuel.    (* a loop did not finish within its fuel *)

Inductive result (A : Type) : Type :=
| Ok (a : A) (w : world)
| Err (f : fault).
Arguments Ok {A} a w.
Arguments Err {A} f.

Definition M (A : Type) : Type := world -> result A.

Definition ret {A : Type} (a : A) : M A := fun w => Ok a w.

Definition bind {A B : Type} (m : M A) (k : A -> M B) : M B :=
  fun w => match m w with
           | Ok a w' => k a w'
           | Err f => Err f
           end.

Definition raise {A : Type} (f : fault) : M A := fun _ => Err f.

Notation "x <- m ;; k" := (bind m (fun x => k))
  (at level 100, m at next level, right associativity).
Notation "m ;; k" := (bind m (fun _ => k))
  (at level 100, right associativity).

(** [for (int i = start; i < bound; i++) body(i)].  The counter is an
    [int]; the loop gives up when the fuel is exhausted. *)
Fixpoint for_loop (fuel : nat) (i bound : Z) (body : Z -> M unit) : M unit :=
  match fuel with
  | O => raise OutOfFuel
  | S fuel' =>
      if i <? bound
      then body i ;; for_loop fuel' (int_add i 1) bound body
      else ret tt
  end.

(** [for (int i = 0; i < bound; i++) body(i)], with fuel for [bound]
    iterations and the final test. *)
Definition for_int (bound : Z) (body : Z -> M unit) : M unit :=
  for_loop (S (Z.to_nat bound)) 0 bound body.

(** [pins[i]] *)
Definition array_get (pins : list Z) (i : Z) : M Z :=
  fun w => match pins !! Z.to_nat i with
           | Some p => Ok p w
           | None => Err OutOfBounds
           end.

(** ** Primitives of the Arduino core *)

(** [digitalWrite(uint8_t pin, uint8_t val)]: both arguments are narrowed
    to 8 bits on the way in. *)
Definition digitalWrite (pin val : Z) : M unit :=
  fun w => Ok tt (perform (EWrite (to_uint8 pin) (to_uint8 val)) w).

Definition digitalRead (pin : Z) : M Z :=
  fun w => Ok (if inputs w pin then HIGH else LOW) w.

Definition tone (pin freq dur : Z) : M unit :=
  fun w => Ok tt (perform (ETone pin freq dur) w).

Definition noTone (pin : Z) : M unit :=
  fun w => Ok tt (perform (ENoTone pin) w).

Definition delay (ms : Z) : M unit :=
  fun w => Ok tt (perform (EDelay ms) w).

Section Sketch.

(** The pseudo-random generator of the C library: [raw k] is the value
    returned by the [k]-th call of [random()], a non-negative [long]. *)
Variable raw : nat -> N.

Definition random_raw : M Z :=
  fun w => Ok (Z.of_N (raw (draws w))) (consume 1 w).

(** [random(howbig)] of the core: [random() % howbig], and 0 when
    [howbig] is 0. *)
Definition random_big (howbig : Z) : M Z :=
  if howbig =? 0 then ret 0
  else r <- random_raw ;; ret (Z.rem r howbig).

(** [random(howsmall, howbig)] of the core. *)
Definition random (howsmall howbig : Z) : M Z :=
  if howsmall >=? howbig then ret howsmall
  else r <- random_big (howbig - howsmall) ;; ret (r + howsmall).

(** ** The sketch *)

(** Lines 131-138. *)
Definition showNumber (number : Z) (pins : list Z) : M unit :=
  for_int 3 (fun i =>
    p <- array_get pins i ;;
    digitalWrite p (Z.land (Z.shiftr number i) 1)).

(** Lines 144-152. *)
Definition playRollSound (duration : Z) : M unit :=
  for_int duration (fun _ =>
    r <- random_big 500 ;;
    tone buzzerPin (to_uint (500 + r)) 20 ;;
    delay 20) ;;
  noTone buzzerPin.

(** Lines 157-162. *)
Definition playStopSound : M unit :=
  tone buzzerPin 200 100 ;;
  delay 100 ;;
  noTone buzzerPin.

(** The argument [i * 0.5] of line 110, converted to the [int] parameter
    of [playRollSound]. *)
Definition roll_intensity (i : Z) : Z :=
  double_to_int (Qmult (int_to_double i) (1 # 2)).

(** The body of the loop of [rollDice], lines 110-114. *)
Definition rollDice_frame (delayTime i : Z) : M unit :=
  playRollSound (roll_intensity i) ;;
  r1 <- random 1 7 ;;
  showNumber (to_int r1) seg1_pins ;;
  r2 <- random 1 7 ;;
  showNumber (to_int r2) seg2_pins ;;
  delay (to_ulong (int_add delayTime (int_mul i 2))).

(** Lines 106-116. *)
Definition rollDice (count delayTime : Z) : M unit :=
  for_int count (rollDice_frame delayTime).

(** Lines 121-124. *)
Definition showResult : M unit :=
  r1 <- random 1 7 ;;
  showNumber (to_int r1) seg1_pins ;;
  r2 <- random 1 7 ;;
  showNumber (to_int r2) seg2_pins.

(** Lines 86-97.  The second button is read only when the first one is
    not pressed. *)
Definition loop : M unit :=
  b1 <- digitalRead button1 ;;
  pressed <- (if b1 =? LOW then ret true
              else b2 <- digitalRead button2 ;; ret (b2 =? LOW)) ;;
  if (pressed : bool)
  then rollDice 20 50 ;; playStopSound ;; showResult ;; delay 300
  else ret tt.

(** ** Expected calls

    The calls each routine is expected to make, written from its
    description: they are compared below with what the sketch does. *)

(** Pitch of the tone computed from the [k]-th draw. *)
Definition pitch (k : nat) : Z := 500 + Z.of_N (raw k) mod 500.

(** Face of a die computed from the [k]-th draw. *)
Definition die (k : nat) : Z := Z.of_N (raw k) mod 6 + 1.

(** [n] tones, the first one from draw [d], each followed by a 20 ms gap. *)
Fixpoint tone_events (d n : nat) : list event :=
  match n with
  | O => []
  | S n' => ETone buzzerPin (pitch d) 20 :: EDelay 20 :: tone_events (S d) n'
  end.

Definition roll_sound_events (d n : nat) : list event :=
  tone_events d n ++ [ENoTone buzzerPin].

Definition stop_sound_events : list event :=
  [ETone buzzerPin 200 100; EDelay 100; ENoTone buzzerPin].

(** Bit [i] of [number] on the [i]-th pin. *)
Definition show_events (number : Z) (pins : list Z) : list event :=
  imap (fun i p => EWrite p (Z.land (Z.shiftr number (Z.of_nat i)) 1)) pins.

(** Number of tones of frame [i]. *)
Definition sound_count (i : Z) : nat := Z.to_nat (i / 2).

(** Frame [i] of the animation, the generator being at draw [d]: the
    roll sound, one face per die, then a pause of [ms] milliseconds. *)
Definition frame_events (ms i : Z) (d : nat) : list event :=
  roll_sound_events d (sound_count i)
  ++ show_events (die (d + sound_count i)) seg1_pins
  ++ show_events (die (d + sound_count i + 1)) seg2_pins
  ++ [EDelay ms].

Definition frame_draws (i : Z) : nat := (sound_count i + 2)%nat.

(** [n] consecutive frames, starting with frame [i] at draw [d]; frame
    [i] pauses for [delayTime + i * 2] milliseconds. *)
Fixpoint anim_events (delayTime : Z) (n : nat) (i : Z) (d : nat) : list event :=
  match n with
  | O => []
  | S n' =>
      frame_events (delayTime + i * 2) i d
      ++ anim_events delayTime n' (i + 1) (d + frame_draws i)
  end.

Fixpoint anim_draws (n : nat) (i : Z) : nat :=
  match n with
  | O => O
  | S n' => (frame_draws i + anim_draws n' (i + 1))%nat
  end.

(** One roll cycle: animation, stop sound, final display, debounce. *)
Definition cycle_events (d : nat) : list event :=
  anim_events 50 20 0 d
  ++ stop_sound_events
  ++ show_events (die (d + 130)) seg1_pins
  ++ show_events (die (d + 131)) seg2_pins
  ++ [EDelay 300].

End Sketch.

(** ** Observations *)


Definition is_write_to (pin : Z) (e : event) : bool :=
  match e with EWrite p _ => p =? pin | _ => false end.

Definition is_delay_of (ms : Z) (e : event) : bool :=
  match e with EDelay m => m =? ms | _ => false end.

Definition is_stop_tone (e : event) : bool :=
  match e with
  | ETone p f d => (d =? 100) && ((f =? 200) && (p =? buzzerPin))
  | _ => false
  end.

(** Number of calls satisfying [p]. *)
Fixpoint calls (p : event -> bool) (es : list event) : nat :=
  match es with
  | [] => O
  | e :: es' => ((if p e then 1 else 0) + calls p es')%nat
  end.

(** The number read by the decoder wired to [pins] (A, B, C lines, least
    significant first). *)
Definition shown (pins : list Z) (w : world) : Z :=
  fold_right (fun p acc => Z.b2z (default false (levels w !! p)) + 2 * acc) 0 pins.

(** The calls recorded once a computation has returned. *)
Definition trace_of {A : Type} (r : result A) : option (list event) :=
  match r with
  | Ok _ w => Some (trace w)
  | Err _ => None
  end.

(** ** Sample inputs *)

(** A generator returning 0, 1, 2, ... *)
Definition raw_count : nat -> N := N.of_nat.

(** Power-on world: all outputs low, both buttons released. *)
Definition idle_world : world :=
  {| levels := list_to_map (map (fun p => (p, false)) (seg1_pins ++ seg2_pins));
     inputs := fun _ => true;
     draws := O;
     trace := [] |}.

(** The same world with the first button held down. *)
Definition pressed_world : world :=
  {| levels := levels idle_world;
     inputs := fun p => negb (p =? button1);
     draws := O;
     trace := [] |}.

(** ** The board around the world

    [setup] also configures pin directions and seeds the generator.  The
    board adds to the world the direction of every configured pin, the
    voltage samples of the analog inputs, and the seed last handed to the
    C library. *)

Inductive pin_mode : Type := INPUT | OUTPUT | INPUT_PULLUP.

Record board : Type := mkBoard {
  modes : gmap Z pin_mode;   (* directions set by pinMode *)
  analog : Z -> Z;           (* what analogRead returns on each pin *)
  seed : option Z;           (* seed given to the generator, if any *)
  hw : world
}.

Inductive bresult (A : Type) : Type :=
| BOk (a : A) (b : board)
| BErr (f : fault).
Arguments BOk {A} a b.
Arguments BErr {A} f.

Definition MB (A : Type) : Type := board -> bresult A.

Definition bret {A : Type} (a : A) : MB A := fun b => BOk a b.

Definition bbind {A B : Type} (m : MB A) (k : A -> MB B) : MB B :=
  fun b => match m b with
           | BOk a b' => k a b'
           | BErr f => BErr f
           end.

Declare Scope board_scope.
Delimit Scope board_scope with board.
Notation "x <- m ;; k" := (bbind m (fun x => k))
  (at level 100, m at next level, right associativity) : board_scope.
Notation "m ;; k" := (bbind m (fun _ => k))
  (at level 100, right associativity) : board_scope.

(** A computation on the world, run on the board. *)
Definition lift {A : Type} (m : M A) : MB A :=
  fun b => match m (hw b) with
           | Ok a w => BOk a {| modes := modes b; analog := analog b;
                                seed := seed b; hw := w |}
           | Err f => BErr f
           end.

(** [for (int i = start; i < bound; i++) body(i)] on the board. *)
Fixpoint bfor_loop (fuel : nat) (i bound : Z) (body : Z -> MB unit) : MB unit :=
  match fuel with
  | O => fun _ => BErr OutOfFuel
  | S fuel' =>
      if i <? bound
      then bbind (body i) (fun _ => bfor_loop fuel' (int_add i 1) bound body)
      else bret tt
  end.

Definition bfor_int (bound : Z) (body : Z -> MB unit) : MB unit :=
  bfor_loop (S (Z.to_nat bound)) 0 bound body.

Definition pinMode (pin : Z) (mode : pin_mode) : MB unit :=
  fun b => BOk tt {| modes := <[pin := mode]> (modes b); analog := analog b;
                     seed := seed b; hw := hw b |}.

Definition analogRead (pin : Z) : MB Z :=
  fun b => BOk (analog b pin) b.

(** [randomSeed(seed)] of the core: the [unsigned long] seed is handed to
    the C library unless it is 0. *)
Definition randomSeed (s : Z) : MB unit :=
  fun b => BOk tt {| modes := modes b; analog := analog b;
                     seed := if to_ulong s =? 0 then seed b
                             else Some (to_ulong s);
                     hw := hw b |}.

(** Lines 60-81. *)
Definition setup : MB unit :=
  (bfor_int 3 (fun i =>
     (p1 <- lift (array_get seg1_pins i) ;;
      pinMode p1 OUTPUT ;;
      p2 <- lift (array_get seg2_pins i) ;;
      pinMode p2 OUTPUT ;;
      q1 <- lift (array_get seg1_pins i) ;;
      lift (digitalWrite q1 LOW) ;;
      q2 <- lift (array_get seg2_pins i) ;;
      lift (digitalWrite q2 LOW))) ;;
   pinMode button1 INPUT ;;
   pinMode button2 INPUT ;;
   pinMode buzzerPin OUTPUT ;;
   lift (noTone buzzerPin) ;;
   v <- analogRead 0 ;;
   randomSeed v)%board.

(** The sketch as the core runs it: [setup] once, then [loop] [n] times. *)
Fixpoint polls (raw : nat -> N) (n : nat) : M unit :=
  match n with
  | O => ret tt
  | S n' => loop raw ;; polls raw n'
  end.

(** The buttons as one poll finds them. *)
Definition set_inputs (rd : Z -> bool) (w : world) : world :=
  {| levels := levels w;
     inputs := rd;
     draws := draws w;
     trace := trace w |}.

(** One call of [loop] per reading: before each call the buttons take the
    levels of the next reading, so that they may change from one poll to
    the next. *)
Fixpoint polls_reading (raw : nat -> N) (rds : list (Z -> bool)) : M unit :=
  match rds with
  | [] => ret tt
  | rd :: rds' =>
      (fun w => loop raw (set_inputs rd w)) ;; polls_reading raw rds'
  end.

(** A reading with a button low. *)
Definition pressed (rd : Z -> bool) : bool :=
  negb (rd button1) || negb (rd button2).

(** Number of readings with a button low. *)
Fixpoint presses (rds : list (Z -> bool)) : nat :=
  match rds with
  | [] => O
  | rd :: rds' => ((if pressed rd then 1 else 0) + presses rds')%nat
  end.

Definition run_sketch (raw : nat -> N) (n : nat) : MB unit :=
  (setup ;; lift (polls raw n))%board.

(** ** Further observations *)

(** Total time spent in [delay], in milliseconds. *)
Fixpoint paused (es : list event) : Z :=
  match es with
  | [] => 0
  | EDelay ms :: es' => ms + paused es'
  | _ :: es' => paused es'
  end.

(** The calls the sketch makes once set up: a write of 0 or 1 to a line of
    a display, a tone or a silencing on the buzzer, a pause. *)
Definition sketch_call (e : event) : Prop :=
  match e with
  | EWrite pin val => In pin (seg1_pins ++ seg2_pins) /\ (val = 0 \/ val = 1)
  | ETone pin freq dur =>
      pin = buzzerPin
      /\ ((500 <= freq < 1000 /\ dur = 20) \/ (freq = 200 /\ dur = 100))
  | ENoTone pin => pin = buzzerPin
  | EDelay ms => 0 <= ms
  end.

(** [n] roll cycles in a row, the first one at draw [d]. *)
Fixpoint cycles_events (raw : nat -> N) (n d : nat) : list event :=
  match n with
  | O => []
  | S n' => cycle_events raw d ++ cycles_events raw n' (d + 132)
  end.

(** The calls of [setup] on the world: every display line driven low, A
    lines first, then B, then C, and the buzzer silenced. *)
Definition setup_events : list event :=
  [EWrite 3 0; EWrite 8 0; EWrite 4 0; EWrite 9 0; EWrite 5 0; EWrite 10 0;
   ENoTone buzzerPin].

(** The directions [setup] leaves on a board that had [m]. *)
Definition setup_modes (m : gmap Z pin_mode) : gmap Z pin_mode :=
  <[buzzerPin := OUTPUT]>
    (<[button2 := INPUT]>
       (<[button1 := INPUT]>
          (<[10 := OUTPUT]>
             (<[5 := OUTPUT]>
                (<[9 := OUTPUT]>
                   (<[4 := OUTPUT]>
                      (<[8 := OUTPUT]>
                         (<[3 := OUTPUT]> m)))))))).

(** A board before [setup]: nothing configured, the displays lit with
    leftovers, analog input 0 floating at 417. *)
Definition cold_board : board :=
  {| modes := ∅;
     analog := fun p => if p =? 0 then 417 else 0;
     seed := None;
     hw := {| levels := {[ 3 := true; 9 := true ]};
              inputs := fun _ => true;
              draws := O;
              trace := [] |} |}.

(** The same board with the second button held down. *)
Definition pressed_board : board :=
  {| modes := modes cold_board;
     analog := analog cold_board;
     seed := None;
     hw := {| levels := levels (hw cold_board);
              inputs := fun p => negb (p =? button2);
              draws := O;
              trace := [] |} |}.

(** ** Machine integers: conversions that change nothing *)

Lemma to_int_small (z : Z) : in_int z -> to_int z = z.
Proof.
  unfold in_int, INT_MIN, INT_MAX, to_int. intros Hz.
  rewrite Z.mod_small by lia. lia.
Qed.

Lemma to_uint_small (z : Z) : 0 <= z < 65536 -> to_uint z = z.
Proof. intros Hz. unfold to_uint. now rewrite Z.mod_small. Qed.

Lemma to_ulong_small (z : Z) : 0 <= z < 4294967296 -> to_ulong z = z.
Proof. intros Hz. unfold to_ulong. now rewrite Z.mod_small. Qed.

Lemma int_succ (i : Z) : 0 <= i < INT_MAX -> int_add i 1 = i + 1.
Proof.
  intros Hi. unfold int_add. apply to_int_small.
  unfold in_int, INT_MIN, INT_MAX in *. lia.
Qed.

(** ** The world under calls and draws *)

Lemma performs_nil (w : world) : performs [] w = w.
Proof. reflexivity. Qed.

Lemma performs_cons (e : event) (es : list event) (w : world) :
  performs (e :: es) w = performs es (perform e w).
Proof. reflexivity. Qed.

Lemma performs_app (es1 es2 : list event) (w : world) :
  performs (es1 ++ es2) w = performs es2 (performs es1 w).
Proof. unfold performs. apply fold_left_app. Qed.

Lemma consume_0 (w : world) : consume 0 w = w.
Proof. destruct w as [l i d t]. unfold consume. simpl. f_equal. lia. Qed.

Lemma consume_consume (n m : nat) (w : world) :
  consume m (consume n w) = consume (n + m) w.
Proof. unfold consume. simpl. f_equal. lia. Qed.

Lemma perform_consume (e : event) (n : nat) (w : world) :
  perform e (consume n w) = consume n (perform e w).
Proof. reflexivity. Qed.

Lemma performs_consume (es : list event) (n : nat) (w : world) :
  performs es (consume n w) = consume n (performs es w).
Proof.
  revert w. induction es as [|e es IH]; intros w; [reflexivity|].
  rewrite !performs_cons, perform_consume. apply IH.
Qed.

Lemma trace_performs (es : list event) (w : world) :
  trace (performs es w) = trace w ++ es.
Proof.
  revert w. induction es as [|e es IH]; intros w.
  - simpl. now rewrite app_nil_r.
  - rewrite performs_cons, IH. simpl. now rewrite <- app_assoc.
Qed.

Lemma draws_performs (es : list event) (w : world) :
  draws (performs es w) = draws w.
Proof.
  revert w. induction es as [|e es IH]; intros w; [reflexivity|].
  rewrite performs_cons, IH. reflexivity.
Qed.

Lemma inputs_performs (es : list event) (w : world) :
  inputs (performs es w) = inputs w.
Proof.
  revert w. induction es as [|e es IH]; intros w; [reflexivity|].
  rewrite performs_cons, IH. reflexivity.
Qed.

(** Calls that are not writes leave the output pins alone. *)
Lemma levels_performs_no_write (es : list event) (w : world) :
  Forall (fun e => forall p v, e <> EWrite p v) es ->
  levels (performs es w) = levels w.
Proof.
  revert w. induction es as [|e es IH]; intros w Hes; [reflexivity|].
  inversion Hes as [|e' es' He Hes']; subst.
  rewrite performs_cons, IH by assumption.
  destruct e; try reflexivity. now exfalso; eapply He.
Qed.

(** A pin that no call writes keeps its level. *)
Lemma levels_performs_other (es : list event) (w : world) (q : Z) :
  calls (is_write_to q) es = O ->
  levels (performs es w) !! q = levels w !! q.
Proof.
  revert w. induction es as [|e es IH]; intros w Hq; [reflexivity|].
  simpl in Hq. rewrite performs_cons.
  destruct (is_write_to q e) eqn:He; [discriminate|].
  rewrite IH by assumption.
  destruct e as [p v| | |]; try reflexivity.
  simpl in He. simpl. apply lookup_insert_ne. intros ->.
  now rewrite Z.eqb_refl in He.
Qed.

Lemma shown_consume (pins : list Z) (n : nat) (w : world) :
  shown pins (consume n w) = shown pins w.
Proof. reflexivity. Qed.

Lemma calls_app (p : event -> bool) (es1 es2 : list event) :
  calls p (es1 ++ es2) = (calls p es1 + calls p es2)%nat.
Proof.
  induction es1 as [|e es1 IH]; [reflexivity|].
  simpl. rewrite IH. lia.
Qed.

Section Runs.

Variable raw : nat -> N.

(** ** Bits *)

Lemma bit_value (n : Z) (i : Z) :
  0 <= i -> Z.land (Z.shiftr n i) 1 = Z.b2z (Z.testbit n i).
Proof.
  intros Hi. change 1 with (Z.ones 1).
  rewrite Z.land_ones by lia. change (2 ^ 1) with 2.
  rewrite <- Z.bit0_mod, Z.shiftr_spec by lia. now rewrite Z.add_0_l.
Qed.

Lemma bit_is_0_or_1 (n i : Z) :
  Z.land (Z.shiftr n i) 1 = 0 \/ Z.land (Z.shiftr n i) 1 = 1.
Proof.
  assert (H : Z.land (Z.shiftr n i) 1 = Z.shiftr n i mod 2)
    by (change 1 with (Z.ones 1); now rewrite Z.land_ones by lia).
  rewrite H. pose proof (Z.mod_pos_bound (Z.shiftr n i) 2). lia.
Qed.

(** A number of three bits is the sum of its bits. *)
Lemma three_bits (n : Z) :
  0 <= n < 8 ->
  Z.land n 1 + 2 * Z.land (Z.shiftr n 1) 1 + 4 * Z.land (Z.shiftr n 2) 1 = n.
Proof.
  intros Hn.
  assert (Hc : n = 0 \/ n = 1 \/ n = 2 \/ n = 3 \/ n = 4 \/ n = 5 \/ n = 6 \/ n = 7)
    by lia.
  destruct Hc as [->|[->|[->|[->|[->|[->|[->| ->]]]]]]]; reflexivity.
Qed.

(** ** The generator *)

Lemma random_big_run (howbig : Z) (w : world) :
  0 < howbig ->
  random_big raw howbig w
  = Ok (Z.of_N (raw (draws w)) mod howbig) (consume 1 w).
Proof.
  intros Hb. unfold random_big.
  destruct (Z.eqb_spec howbig 0) as [E|E]; [lia|].
  unfold bind, random_raw, ret. rewrite Z.rem_mod_nonneg by lia. reflexivity.
Qed.

Lemma random_die_run (w : world) :
  random raw 1 7 w = Ok (die raw (draws w)) (consume 1 w).
Proof.
  unfold random. simpl. unfold bind. rewrite random_big_run by lia.
  reflexivity.
Qed.

Lemma die_range (k : nat) : 1 <= die raw k <= 6.
Proof.
  unfold die. pose proof (Z.mod_pos_bound (Z.of_N (raw k)) 6). lia.
Qed.

Lemma pitch_range (k : nat) : 500 <= pitch raw k < 1000.
Proof.
  unfold pitch. pose proof (Z.mod_pos_bound (Z.of_N (raw k)) 500). lia.
Qed.

(** ** showNumber *)

Lemma show_events_three (n p0 p1 p2 : Z) :
  show_events n [p0; p1; p2]
  = [EWrite p0 (Z.land n 1);
     EWrite p1 (Z.land (Z.shiftr n 1) 1);
     EWrite p2 (Z.land (Z.shiftr n 2) 1)].
Proof. reflexivity. Qed.

Lemma to_uint8_small (z : Z) : pin_number z -> to_uint8 z = z.
Proof. intros Hz. unfold to_uint8. now rewrite Z.mod_small. Qed.

Lemma to_uint8_bit (n i : Z) :
  to_uint8 (Z.land (Z.shiftr n i) 1) = Z.land (Z.shiftr n i) 1.
Proof.
  apply to_uint8_small. unfold pin_number.
  destruct (bit_is_0_or_1 n i) as [E|E]; rewrite E; lia.
Qed.

(** The pins are written under their numbers modulo 256. *)
Lemma showNumber_run (n p0 p1 p2 : Z) (w : world) :
  showNumber n [p0; p1; p2] w
  = Ok tt (performs (show_events n [to_uint8 p0; to_uint8 p1; to_uint8 p2]) w).
Proof.
  transitivity
    (Ok tt
       (performs
          [EWrite (to_uint8 p0) (to_uint8 (Z.land (Z.shiftr n 0) 1));
           EWrite (to_uint8 p1) (to_uint8 (Z.land (Z.shiftr n 1) 1));
           EWrite (to_uint8 p2) (to_uint8 (Z.land (Z.shiftr n 2) 1))] w));
    [reflexivity|].
  rewrite !to_uint8_bit. reflexivity.
Qed.

Lemma showNumber_pins (n p0 p1 p2 : Z) (w : world) :
  pin_number p0 -> pin_number p1 -> pin_number p2 ->
  showNumber n [p0; p1; p2] w = Ok tt (performs (show_events n [p0; p1; p2]) w).
Proof.
  intros H0 H1 H2. rewrite showNumber_run.
  now rewrite !to_uint8_small by assumption.
Qed.

(** With fewer than three pins the third read falls outside the array. *)
Lemma showNumber_short (n : Z) (pins : list Z) (w : world) :
  (length pins < 3)%nat -> showNumber n pins w = Err OutOfBounds.
Proof.
  intros Hl. destruct pins as [|p0 [|p1 [|p2 pins]]]; try reflexivity.
  simpl in Hl. lia.
Qed.

Lemma show_events_die (k : nat) :
  show_events (to_int (die raw k)) seg1_pins = show_events (die raw k) seg1_pins
  /\ show_events (to_int (die raw k)) seg2_pins = show_events (die raw k) seg2_pins.
Proof.
  pose proof (die_range k) as Hd.
  rewrite to_int_small; [split; reflexivity|].
  unfold in_int, INT_MIN, INT_MAX. lia.
Qed.

(** ** playStopSound *)

Lemma playStopSound_run (w : world) :
  playStopSound w = Ok tt (performs stop_sound_events w).
Proof. reflexivity. Qed.

(** ** playRollSound *)

Lemma roll_sound_loop (k : Z) (n : nat) :
  forall (i : Z) (w : world),
    0 <= i -> i + Z.of_nat n = k -> k <= INT_MAX ->
    for_loop (S n) i k
      (fun _ => r <- random_big raw 500 ;;
                tone buzzerPin (to_uint (500 + r)) 20 ;;
                delay 20) w
    = Ok tt (consume n (performs (tone_events raw (draws w) n) w)).
Proof.
  induction n as [|n IH]; intros i w Hi Hk Hmax.
  - cbn [for_loop]. destruct (Z.ltb_spec i k) as [Hlt|Hge]; [lia|].
    unfold ret. simpl. now rewrite consume_0.
  - cbn [for_loop]. destruct (Z.ltb_spec i k) as [Hlt|Hge]; [|lia].
    unfold bind at 1. unfold bind at 1. rewrite random_big_run by lia.
    fold (pitch raw (draws w)).
    pose proof (pitch_range (draws w)) as Hp.
    rewrite to_uint_small by lia.
    unfold bind at 1. unfold tone at 1. unfold delay at 1.
    rewrite int_succ by lia.
    rewrite (IH (i + 1)) by lia.
    f_equal. cbn [tone_events].
    rewrite !performs_cons.
    rewrite !perform_consume, performs_consume, consume_consume.
    simpl draws. replace (draws w + 1)%nat with (S (draws w)) by lia.
    reflexivity.
Qed.

Lemma playRollSound_run (k : Z) (w : world) :
  0 <= k <= INT_MAX ->
  playRollSound raw k w
  = Ok tt (consume (Z.to_nat k)
             (performs (roll_sound_events raw (draws w) (Z.to_nat k)) w)).
Proof.
  intros Hk. unfold playRollSound, for_int. unfold bind at 1.
  rewrite (roll_sound_loop k (Z.to_nat k) 0 w) by lia.
  unfold noTone, roll_sound_events.
  rewrite performs_app. reflexivity.
Qed.

(** ** rollDice *)

Lemma roll_intensity_quot (i : Z) : in_int i -> roll_intensity i = Z.quot i 2.
Proof.
  intros Hi. unfold roll_intensity, double_to_int, int_to_double.
  cbn [Qmult inject_Z Qnum Qden Pos.mul]. rewrite Z.mul_1_r.
  apply to_int_small. unfold in_int, INT_MIN, INT_MAX in *.
  pose proof (Z.quot_rem' i 2) as Hq.
  pose proof (Z.rem_bound_abs i 2 ltac:(lia)) as Hr. lia.
Qed.

Lemma roll_intensity_half (i : Z) : 0 <= i <= INT_MAX -> roll_intensity i = i / 2.
Proof.
  intros Hi. rewrite roll_intensity_quot.
  - apply Z.quot_div_nonneg; lia.
  - unfold in_int, INT_MIN, INT_MAX in *. lia.
Qed.

Lemma showNumber_seg1 (n : Z) (w : world) :
  showNumber n seg1_pins w = Ok tt (performs (show_events n seg1_pins) w).
Proof. apply showNumber_pins; unfold pin_number; lia. Qed.

Lemma showNumber_seg2 (n : Z) (w : world) :
  showNumber n seg2_pins w = Ok tt (performs (show_events n seg2_pins) w).
Proof. apply showNumber_pins; unfold pin_number; lia. Qed.

Lemma frame_delay (delayTime i : Z) :
  0 <= i -> 0 <= delayTime -> delayTime + i * 2 <= INT_MAX ->
  to_ulong (int_add delayTime (int_mul i 2)) = delayTime + i * 2.
Proof.
  unfold INT_MAX. intros Hi Hd Hmax. unfold int_add, int_mul.
  rewrite (to_int_small (i * 2)) by (unfold in_int, INT_MIN, INT_MAX; lia).
  rewrite to_int_small by (unfold in_int, INT_MIN, INT_MAX; lia).
  apply to_ulong_small. lia.
Qed.

Ltac world_normal :=
  repeat first
    [ rewrite perform_consume
    | rewrite performs_consume
    | rewrite consume_consume
    | rewrite draws_performs
    | progress cbn [draws consume] ].

Lemma showResult_run (w : world) :
  showResult raw w
  = Ok tt (consume 2
             (performs (show_events (die raw (draws w)) seg1_pins
                        ++ show_events (die raw (draws w + 1)) seg2_pins) w)).
Proof.
  unfold showResult.
  unfold bind at 1. rewrite random_die_run.
  unfold bind at 1. rewrite showNumber_seg1.
  unfold bind at 1. rewrite random_die_run.
  rewrite showNumber_seg2.
  rewrite (proj1 (show_events_die _)), (proj2 (show_events_die _)).
  world_normal. rewrite performs_app. reflexivity.
Qed.

Lemma rollDice_frame_run (delayTime i : Z) (w : world) :
  0 <= i <= INT_MAX ->
  rollDice_frame raw delayTime i w
  = Ok tt (consume (frame_draws i)
             (performs
                (frame_events raw (to_ulong (int_add delayTime (int_mul i 2)))
                   i (draws w)) w)).
Proof.
  intros Hi. unfold rollDice_frame.
  assert (Hhalf : 0 <= i / 2 <= INT_MAX).
  { unfold INT_MAX in *. split; [apply Z.div_pos; lia|].
    apply Z.le_trans with i; [|lia]. apply Z.div_le_upper_bound; lia. }
  unfold bind at 1. rewrite roll_intensity_half, playRollSound_run by assumption.
  fold (sound_count i).
  unfold bind at 1. rewrite random_die_run.
  unfold bind at 1. rewrite showNumber_seg1.
  unfold bind at 1. rewrite random_die_run.
  unfold bind at 1. rewrite showNumber_seg2.
  rewrite (proj1 (show_events_die _)), (proj2 (show_events_die _)).
  unfold delay, frame_events, frame_draws.
  world_normal. rewrite !performs_app.
  change (performs [EDelay ?ms] ?x) with (perform (EDelay ms) x).
  replace (draws w + (sound_count i + 1))%nat
    with (draws w + sound_count i + 1)%nat by lia.
  reflexivity.
Qed.

Lemma rollDice_loop (delayTime count : Z) (n : nat) :
  forall (i : Z) (w : world),
    0 <= i -> i + Z.of_nat n = count -> count <= INT_MAX ->
    (forall j, 0 <= j < count -> 0 <= delayTime + j * 2 <= INT_MAX) ->
    for_loop (S n) i count (rollDice_frame raw delayTime) w
    = Ok tt (consume (anim_draws n i)
               (performs (anim_events raw delayTime n i (draws w)) w)).
Proof.
  induction n as [|n IH]; intros i w Hi Hk Hmax Hdelay.
  - cbn [for_loop]. destruct (Z.ltb_spec i count) as [Hlt|Hge]; [lia|].
    unfold ret. simpl. now rewrite consume_0.
  - cbn [for_loop]. destruct (Z.ltb_spec i count) as [Hlt|Hge]; [|lia].
    pose proof (Hdelay 0 ltac:(lia)) as H0.
    pose proof (Hdelay i ltac:(lia)) as Hframe.
    unfold bind at 1. rewrite rollDice_frame_run, frame_delay by lia.
    rewrite int_succ by lia.
    rewrite (IH (i + 1)) by (assumption || lia).
    cbn [anim_events anim_draws].
    world_normal. rewrite performs_app. reflexivity.
Qed.

Lemma rollDice_run (count delayTime : Z) (w : world) :
  0 <= count <= INT_MAX ->
  (forall j, 0 <= j < count -> 0 <= delayTime + j * 2 <= INT_MAX) ->
  rollDice raw count delayTime w
  = Ok tt (consume (anim_draws (Z.to_nat count) 0)
             (performs (anim_events raw delayTime (Z.to_nat count) 0 (draws w)) w)).
Proof.
  intros Hc Hd. unfold rollDice, for_int.
  apply rollDice_loop; try assumption; lia.
Qed.

Lemma rollDice_skip (count delayTime : Z) (w : world) :
  count <= 0 -> rollDice raw count delayTime w = Ok tt w.
Proof.
  intros Hc. unfold rollDice, for_int.
  replace (Z.to_nat count) with O by lia.
  cbn [for_loop]. destruct (Z.ltb_spec 0 count) as [Hlt|Hge]; [lia|].
  reflexivity.
Qed.

(** ** loop *)

Lemma anim_draws_cycle : anim_draws 20 0 = 130%nat.
Proof. reflexivity. Qed.

Lemma cycle_run (w : world) :
  (rollDice raw 20 50 ;; playStopSound ;; showResult raw ;; delay 300) w
  = Ok tt (consume 132 (performs (cycle_events raw (draws w)) w)).
Proof.
  unfold bind at 1. rewrite rollDice_run by (unfold INT_MAX; lia).
  change (Z.to_nat 20) with 20%nat. rewrite anim_draws_cycle.
  unfold bind at 1. rewrite playStopSound_run.
  unfold bind at 1. rewrite showResult_run.
  unfold delay, cycle_events.
  world_normal. rewrite !performs_app.
  change (performs [EDelay 300] ?x) with (perform (EDelay 300) x).
  replace (draws w + 130 + 1)%nat with (draws w + 131)%nat by lia.
  reflexivity.
Qed.

Lemma loop_pressed (w : world) :
  inputs w button1 = false \/ inputs w button2 = false ->
  loop raw w = Ok tt (consume 132 (performs (cycle_events raw (draws w)) w)).
Proof.
  intros Hb. unfold loop.
  unfold bind at 1. unfold digitalRead at 1.
  destruct (inputs w button1) eqn:E1.
  - destruct Hb as [Hb|Hb]; [discriminate|].
    cbn [HIGH LOW Z.eqb]. unfold bind at 1. unfold bind at 1.
    unfold digitalRead. rewrite Hb. cbn [ret LOW Z.eqb].
    apply cycle_run.
  - cbn [LOW Z.eqb]. unfold bind at 1. cbn [ret].
    apply cycle_run.
Qed.

Lemma loop_released (w : world) :
  inputs w button1 = true -> inputs w button2 = true ->
  loop raw w = Ok tt w.
Proof.
  intros H1 H2. unfold loop.
  unfold bind at 1. unfold digitalRead at 1. rewrite H1.
  change (HIGH =? LOW) with false. cbv iota.
  unfold bind at 1. unfold bind at 1. unfold digitalRead. rewrite H2.
  reflexivity.
Qed.

End Runs.

Section Calls.

Variable raw : nat -> N.

(** ** Counting calls *)

Lemma tone_events_pitches (d n : nat) :
  tone_events raw d n
  = flat_map (fun f => [ETone buzzerPin f 20; EDelay 20])
      (map (pitch raw) (seq d n)).
Proof.
  revert d. induction n as [|n IH]; intros d; [reflexivity|].
  cbn [tone_events seq map flat_map app]. now rewrite IH.
Qed.


Lemma writes_tone_events (q : Z) (d n : nat) :
  calls (is_write_to q) (tone_events raw d n) = O.
Proof.
  revert d. induction n as [|n IH]; intros d; [reflexivity|].
  cbn [tone_events calls is_write_to]. now rewrite IH.
Qed.

Lemma writes_roll_sound (q : Z) (d n : nat) :
  calls (is_write_to q) (roll_sound_events raw d n) = O.
Proof.
  unfold roll_sound_events. rewrite calls_app, writes_tone_events. reflexivity.
Qed.



(** Each frame writes every line of both displays once. *)
Lemma writes_frame (p ms i : Z) (d : nat) :
  In p (seg1_pins ++ seg2_pins) ->
  calls (is_write_to p) (frame_events raw ms i d) = 1%nat.
Proof.
  intros Hp. unfold frame_events. rewrite calls_app, writes_roll_sound.
  simpl in Hp.
  destruct Hp as [<-|[<-|[<-|[<-|[<-|[<-|[]]]]]]]; reflexivity.
Qed.

Lemma writes_anim (p delayTime : Z) (n : nat) :
  In p (seg1_pins ++ seg2_pins) ->
  forall (i : Z) (d : nat),
    calls (is_write_to p) (anim_events raw delayTime n i d) = n.
Proof.
  intros Hp. induction n as [|n IH]; intros i d; [reflexivity|].
  cbn [anim_events]. rewrite calls_app, writes_frame, IH by assumption.
  reflexivity.
Qed.

(** The animation ends with its last frame. *)
Lemma anim_events_snoc (delayTime : Z) (n : nat) :
  forall (i : Z) (d : nat),
    anim_events raw delayTime (S n) i d
    = anim_events raw delayTime n i d
      ++ frame_events raw (delayTime + (i + Z.of_nat n) * 2) (i + Z.of_nat n)
           (d + anim_draws n i).
Proof.
  induction n as [|n IH]; intros i d.
  - cbn [anim_events anim_draws app]. rewrite app_nil_r.
    rewrite Z.add_0_r, Nat.add_0_r. reflexivity.
  - change (anim_events raw delayTime (S (S n)) i d)
      with (frame_events raw (delayTime + i * 2) i d
            ++ anim_events raw delayTime (S n) (i + 1) (d + frame_draws i)).
    rewrite IH. cbn [anim_events anim_draws]. rewrite <- app_assoc.
    replace (i + 1 + Z.of_nat n) with (i + Z.of_nat (S n)) by lia.
    replace (d + frame_draws i + anim_draws n (i + 1))%nat
      with (d + (frame_draws i + anim_draws n (i + 1)))%nat by lia.
    reflexivity.
Qed.

(** ** What the decoder reads *)

Lemma bits_mod8 (n : Z) :
  Z.land n 1 + 2 * Z.land (Z.shiftr n 1) 1 + 4 * Z.land (Z.shiftr n 2) 1
  = n mod 8.
Proof.
  assert (H : forall a, Z.land a 1 = a mod 2)
    by (intros a; change 1 with (Z.ones 1); now rewrite Z.land_ones by lia).
  rewrite !H, !Z.shiftr_div_pow2 by lia.
  change (2 ^ 1) with 2. change (2 ^ 2) with 4.
  Z.div_mod_to_equations. lia.
Qed.

Lemma level_of_bit (n i : Z) :
  Z.b2z (negb (Z.land (Z.shiftr n i) 1 =? LOW)) = Z.land (Z.shiftr n i) 1.
Proof.
  unfold LOW. destruct (bit_is_0_or_1 n i) as [E|E]; rewrite E; reflexivity.
Qed.

(** After [number] has been written to three distinct pins, and as long as
    no later call writes them, the decoder reads the three low bits of
    [number]. *)
Lemma shown_after_show (n p0 p1 p2 : Z) (es : list event) (w : world) :
  p0 <> p1 -> p0 <> p2 -> p1 <> p2 ->
  calls (is_write_to p0) es = O ->
  calls (is_write_to p1) es = O ->
  calls (is_write_to p2) es = O ->
  shown [p0; p1; p2] (performs (show_events n [p0; p1; p2] ++ es) w) = n mod 8.
Proof.
  intros H01 H02 H12 He0 He1 He2.
  rewrite show_events_three, performs_app.
  set (w1 := performs _ w). unfold shown. cbn [fold_right].
  rewrite (levels_performs_other es w1 p0) by assumption.
  rewrite (levels_performs_other es w1 p1) by assumption.
  rewrite (levels_performs_other es w1 p2) by assumption.
  subst w1. cbn [performs fold_left perform levels].
  rewrite (lookup_insert_ne _ p2 p0), (lookup_insert_ne _ p1 p0) by congruence.
  rewrite (lookup_insert_ne _ p2 p1) by congruence.
  rewrite !lookup_insert_eq. cbn [default id].
  rewrite (level_of_bit n 1), (level_of_bit n 2).
  change (Z.land n 1) with (Z.land (Z.shiftr n 0) 1) at 1.
  rewrite (level_of_bit n 0).
  rewrite <- bits_mod8. change (Z.shiftr n 0) with n. lia.
Qed.

End Calls.

Section Cycle.

Variable raw : nat -> N.

(** ** One frame, one cycle *)

Lemma rollDice_one_frame (delayTime : Z) (w : world) :
  rollDice raw 1 delayTime w
  = Ok tt (consume (frame_draws 0)
             (performs
                (frame_events raw (to_ulong (int_add delayTime (int_mul 0 2)))
                   0 (draws w)) w)).
Proof.
  unfold rollDice, for_int. change (Z.to_nat 1) with 1%nat.
  cbn [for_loop]. change (0 <? 1) with true. cbv iota.
  unfold bind at 1. rewrite rollDice_frame_run by (unfold INT_MAX; lia).
  reflexivity.
Qed.

Lemma die_mod8 (k : nat) : die raw k mod 8 = die raw k.
Proof. pose proof (die_range raw k). apply Z.mod_small. lia. Qed.

(** When the animation of a cycle ends, the displays show the faces of
    its last frame, drawn at positions 128 and 129 of the cycle. *)
Lemma animation_shown (w : world) :
  shown seg1_pins (performs (anim_events raw 50 20 0 (draws w)) w)
  = die raw (draws w + 128)
  /\ shown seg2_pins (performs (anim_events raw 50 20 0 (draws w)) w)
     = die raw (draws w + 129).
Proof.
  rewrite (anim_events_snoc raw 50 19 0 (draws w)).
  change (anim_draws 19 0) with 119%nat.
  change (0 + Z.of_nat 19) with 19.
  unfold frame_events. change (sound_count 19) with 9%nat.
  replace (draws w + 119 + 9)%nat with (draws w + 128)%nat by lia.
  replace (draws w + 128 + 1)%nat with (draws w + 129)%nat by lia.
  rewrite !performs_app. split.
  - rewrite <- (performs_app (show_events _ seg2_pins)).
    rewrite <- (performs_app (show_events _ seg1_pins)).
    unfold seg1_pins at 1 2.
    rewrite shown_after_show by (reflexivity || lia).
    apply die_mod8.
  - rewrite <- (performs_app (show_events _ seg2_pins)).
    unfold seg2_pins at 1 2.
    rewrite shown_after_show by (reflexivity || lia).
    apply die_mod8.
Qed.

(** When the cycle ends, they show the faces drawn at positions 130 and
    131. *)
Lemma cycle_shown (w : world) :
  shown seg1_pins (performs (cycle_events raw (draws w)) w)
  = die raw (draws w + 130)
  /\ shown seg2_pins (performs (cycle_events raw (draws w)) w)
     = die raw (draws w + 131).
Proof.
  unfold cycle_events. rewrite !performs_app. split.
  - rewrite <- (performs_app (show_events _ seg2_pins)).
    rewrite <- (performs_app (show_events _ seg1_pins)).
    unfold seg1_pins at 1 2.
    rewrite shown_after_show by (reflexivity || lia).
    apply die_mod8.
  - rewrite <- (performs_app (show_events _ seg2_pins)).
    unfold seg2_pins at 1 2.
    rewrite shown_after_show by (reflexivity || lia).
    apply die_mod8.
Qed.

Lemma cycle_calls (d : nat) :
  calls is_stop_tone (cycle_events raw d) = 1%nat
  /\ calls (is_delay_of 300) (cycle_events raw d) = 1%nat
  /\ (forall p, In p (seg1_pins ++ seg2_pins) ->
      calls (is_write_to p) (cycle_events raw d) = 21%nat).
Proof.
  split; [reflexivity|]. split; [reflexivity|].
  intros p Hp. unfold cycle_events.
  rewrite calls_app, writes_anim by assumption.
  simpl in Hp.
  destruct Hp as [<-|[<-|[<-|[<-|[<-|[<-|[]]]]]]]; reflexivity.
Qed.

End Cycle.

(** * Properties of the sketch *)

Section Properties.

Variable raw : nat -> N.

(** C1. For a face [n] between 1 and 6 and three pin numbers, [showNumber]
    makes exactly three writes, in order: bit 0 of [n] to the first pin, bit
    1 to the second, bit 2 to the third.  The three bits written add up to
    [n], and when the pins are distinct the decoder wired to them reads
    [n]. *)
Theorem showNumber_writes_bits (n p0 p1 p2 : Z) (w : world) :
  1 <= n <= 6 ->
  pin_number p0 -> pin_number p1 -> pin_number p2 ->
  showNumber n [p0; p1; p2] w
  = Ok tt (performs [EWrite p0 (Z.land n 1);
                     EWrite p1 (Z.land (Z.shiftr n 1) 1);
                     EWrite p2 (Z.land (Z.shiftr n 2) 1)] w)
  /\ Z.land n 1 + 2 * Z.land (Z.shiftr n 1) 1 + 4 * Z.land (Z.shiftr n 2) 1 = n
  /\ (p0 <> p1 -> p0 <> p2 -> p1 <> p2 ->
      shown [p0; p1; p2]
        (performs [EWrite p0 (Z.land n 1);
                   EWrite p1 (Z.land (Z.shiftr n 1) 1);
                   EWrite p2 (Z.land (Z.shiftr n 2) 1)] w) = n).
Proof.
  intros Hn Hp0 Hp1 Hp2. split; [now apply showNumber_pins|]. split.
  - apply three_bits. lia.
  - intros H01 H02 H12.
    pose proof (shown_after_show n p0 p1 p2 [] w H01 H02 H12
                  eq_refl eq_refl eq_refl) as H.
    rewrite app_nil_r, show_events_three in H.
    etransitivity; [exact H|]. apply Z.mod_small. lia.
Qed.

(** C8. For a number outside 1..6 (zero, seven and above, negative) and
    three pin numbers, [showNumber] raises no fault and makes the same
    three writes, each of the value 0 or 1: bit [i] of the number to the
    [i]-th pin. *)
Theorem showNumber_out_of_range (n p0 p1 p2 : Z) (w : world) :
  ~ (1 <= n <= 6) ->
  pin_number p0 -> pin_number p1 -> pin_number p2 ->
  showNumber n [p0; p1; p2] w
  = Ok tt (performs [EWrite p0 (Z.land (Z.shiftr n 0) 1);
                     EWrite p1 (Z.land (Z.shiftr n 1) 1);
                     EWrite p2 (Z.land (Z.shiftr n 2) 1)] w)
  /\ (forall i, Z.land (Z.shiftr n i) 1 = 0 \/ Z.land (Z.shiftr n i) 1 = 1)
  /\ Z.land (Z.shiftr n 0) 1 + 2 * Z.land (Z.shiftr n 1) 1
     + 4 * Z.land (Z.shiftr n 2) 1 = n mod 8.
Proof.
  intros _ Hp0 Hp1 Hp2. split; [now apply showNumber_pins|]. split.
  - intros i. apply bit_is_0_or_1.
  - apply bits_mod8.
Qed.

(** C9. Given three pin numbers, [showNumber] writes those three pins and
    nothing else: every call it makes is a write to one of them, every
    other pin keeps its level, and the inputs and the generator are left as
    they were. *)
Theorem showNumber_touches_only_its_pins (n p0 p1 p2 : Z) (w : world) :
  pin_number p0 -> pin_number p1 -> pin_number p2 ->
  exists (w' : world) (es : list event),
    showNumber n [p0; p1; p2] w = Ok tt w'
    /\ trace w' = trace w ++ es
    /\ Forall (fun e => exists p v, e = EWrite p v /\ In p [p0; p1; p2]) es
    /\ (forall q, ~ In q [p0; p1; p2] -> levels w' !! q = levels w !! q)
    /\ inputs w' = inputs w
    /\ draws w' = draws w.
Proof.
  intros Hp0 Hp1 Hp2.
  exists (performs (show_events n [p0; p1; p2]) w), (show_events n [p0; p1; p2]).
  split; [now apply showNumber_pins|].
  split; [apply trace_performs|].
  split.
  { rewrite show_events_three.
    repeat constructor; eexists _, _; (split; [reflexivity|]); simpl; tauto. }
  split.
  { intros q Hq. apply levels_performs_other.
    rewrite show_events_three. cbn [calls is_write_to].
    destruct (Z.eqb_spec p0 q) as [->|_]; [exfalso; apply Hq; simpl; tauto|].
    destruct (Z.eqb_spec p1 q) as [->|_]; [exfalso; apply Hq; simpl; tauto|].
    destruct (Z.eqb_spec p2 q) as [->|_]; [exfalso; apply Hq; simpl; tauto|].
    reflexivity. }
  split; [apply inputs_performs | apply draws_performs].
Qed.

(** C6. Whatever the world, [playStopSound] makes exactly three calls: one
    tone of 200 Hz for 100 ms on the buzzer, a pause of 100 ms, and the
    silencing of the buzzer.  It draws nothing from the generator and
    writes no pin. *)
Theorem playStopSound_fixed (w : world) :
  playStopSound w
  = Ok tt (performs [ETone buzzerPin 200 100; EDelay 100; ENoTone buzzerPin] w)
  /\ trace (performs [ETone buzzerPin 200 100; EDelay 100; ENoTone buzzerPin] w)
     = trace w ++ [ETone buzzerPin 200 100; EDelay 100; ENoTone buzzerPin]
  /\ levels (performs [ETone buzzerPin 200 100; EDelay 100; ENoTone buzzerPin] w)
     = levels w
  /\ draws (performs [ETone buzzerPin 200 100; EDelay 100; ENoTone buzzerPin] w)
     = draws w.
Proof.
  split; [apply playStopSound_run|].
  split; [apply trace_performs|].
  split; reflexivity.
Qed.

(** C4. For a count [k] of type [int] that is not negative, [playRollSound]
    makes exactly [k] tone calls on the buzzer, each of a pitch in
    [500, 1000) Hz lasting 20 ms and each followed by a pause of 20 ms,
    and then silences the buzzer; it draws one value per tone.  For
    [k = 0] the only call is the silencing. *)
Theorem playRollSound_tones (k : Z) (w : world) :
  0 <= k <= INT_MAX ->
  (exists fs : list Z,
      length fs = Z.to_nat k
      /\ Forall (fun f => 500 <= f < 1000) fs
      /\ playRollSound raw k w
         = Ok tt (consume (Z.to_nat k)
                    (performs
                       (flat_map (fun f => [ETone buzzerPin f 20; EDelay 20]) fs
                        ++ [ENoTone buzzerPin]) w)))
  /\ (k = 0 -> playRollSound raw k w = Ok tt (perform (ENoTone buzzerPin) w)).
Proof.
  intros Hk. split.
  - exists (map (pitch raw) (seq (draws w) (Z.to_nat k))).
    split; [now rewrite length_map, length_seq|].
    split.
    + apply List.Forall_forall. intros f Hf. apply in_map_iff in Hf.
      destruct Hf as [j [<- _]]. apply pitch_range.
    + rewrite playRollSound_run by assumption.
      unfold roll_sound_events. now rewrite tone_events_pitches.
  - intros ->. rewrite playRollSound_run by assumption.
    change (Z.to_nat 0) with O. now rewrite consume_0.
Qed.


(** C3, for the delays that [delay] receives unchanged.  For a frame count
    of type [int] that is not negative, and a base delay such that
    [delayTime + i * 2] lies in [0, INT_MAX] for every frame [i] below the
    count, [rollDice] runs exactly [count] frames.
    Frame [i] plays the roll sound, draws and shows one face in 1..6 for
    the first die and then one for the second, each from its own draw, and
    pauses for [delayTime + i * 2] milliseconds.  Every line of both
    displays is written exactly [count] times. *)
Theorem rollDice_animation (count delayTime : Z) (w : world) :
  0 <= count <= INT_MAX ->
  (forall i, 0 <= i < count -> 0 <= delayTime + i * 2 <= INT_MAX) ->
  rollDice raw count delayTime w
  = Ok tt (consume (anim_draws (Z.to_nat count) 0)
             (performs (anim_events raw delayTime (Z.to_nat count) 0 (draws w)) w))
  /\ (forall p, In p (seg1_pins ++ seg2_pins) ->
      calls (is_write_to p)
        (anim_events raw delayTime (Z.to_nat count) 0 (draws w))
      = Z.to_nat count)
  /\ (forall k, 1 <= die raw k <= 6)
  /\ (count = 20 ->
      forall p, In p (seg1_pins ++ seg2_pins) ->
        calls (is_write_to p) (anim_events raw delayTime 20 0 (draws w)) = 20%nat).
Proof.
  intros Hc Hd.
  split; [now apply rollDice_run|].
  split; [intros p Hp; now apply writes_anim|].
  split; [apply die_range|].
  intros _ p Hp. now apply writes_anim.
Qed.

(** C10. With a frame count that is zero or negative [rollDice] runs no
    frame: it makes no call, draws nothing and returns the world as it
    found it, whatever the delay. *)
Theorem rollDice_no_frame (count delayTime : Z) (w : world) :
  count <= 0 -> rollDice raw count delayTime w = Ok tt w.
Proof. apply rollDice_skip. Qed.

(** C2. When a poll of [loop] finds either button low, exactly one roll
    cycle runs, in this order: the animation [rollDice 20 50] (20 frames,
    base delay 50 ms), the stop sound, the final display of two fresh draws
    (one per die), and a pause of 300 ms.  The cycle contains one stop
    tone, one pause of 300 ms and 21 writes of every display line,
    whatever the state of the other button. *)
Theorem loop_runs_one_cycle (w : world) :
  inputs w button1 = false \/ inputs w button2 = false ->
  loop raw w
  = Ok tt (consume 132
             (performs
                (anim_events raw 50 20 0 (draws w)
                 ++ [ETone buzzerPin 200 100; EDelay 100; ENoTone buzzerPin]
                 ++ show_events (die raw (draws w + 130)) seg1_pins
                 ++ show_events (die raw (draws w + 131)) seg2_pins
                 ++ [EDelay 300]) w))
  /\ rollDice raw 20 50 w
     = Ok tt (consume 130 (performs (anim_events raw 50 20 0 (draws w)) w))
  /\ calls is_stop_tone (cycle_events raw (draws w)) = 1%nat
  /\ calls (is_delay_of 300) (cycle_events raw (draws w)) = 1%nat
  /\ (forall p, In p (seg1_pins ++ seg2_pins) ->
      calls (is_write_to p) (cycle_events raw (draws w)) = 21%nat).
Proof.
  intros Hb. split; [now apply loop_pressed|].
  split.
  { rewrite rollDice_run by (unfold INT_MAX; lia). reflexivity. }
  apply cycle_calls.
Qed.

End Properties.

(** C7. The result of a roll cycle comes from two draws of its own, made
    once the animation is over: after the 130 draws of the animation, the
    131st and 132nd give the faces left on the two displays, each in 1..6,
    while the last frame showed the faces of the 129th and 130th.  Nothing
    makes the two agree: with the generator [raw_count] the first display
    ends the animation on one face and the cycle on another. *)
Theorem final_result_is_redrawn :
  (forall (raw : nat -> N) (w : world),
      inputs w button1 = false \/ inputs w button2 = false ->
      exists w_anim w_final : world,
        rollDice raw 20 50 w = Ok tt w_anim
        /\ loop raw w = Ok tt w_final
        /\ draws w_anim = (draws w + 130)%nat
        /\ shown seg1_pins w_anim = die raw (draws w_anim - 2)
        /\ shown seg2_pins w_anim = die raw (draws w_anim - 1)
        /\ shown seg1_pins w_final = die raw (draws w_anim)
        /\ shown seg2_pins w_final = die raw (draws w_anim + 1)
        /\ 1 <= shown seg1_pins w_final <= 6
        /\ 1 <= shown seg2_pins w_final <= 6)
  /\ (exists w_anim w_final : world,
        rollDice raw_count 20 50 pressed_world = Ok tt w_anim
        /\ loop raw_count pressed_world = Ok tt w_final
        /\ shown seg1_pins w_anim = 3
        /\ shown seg1_pins w_final = 5).
Proof.
  assert (Hall : forall (raw : nat -> N) (w : world),
      inputs w button1 = false \/ inputs w button2 = false ->
      exists w_anim w_final : world,
        rollDice raw 20 50 w = Ok tt w_anim
        /\ loop raw w = Ok tt w_final
        /\ draws w_anim = (draws w + 130)%nat
        /\ shown seg1_pins w_anim = die raw (draws w + 128)
        /\ shown seg2_pins w_anim = die raw (draws w + 129)
        /\ shown seg1_pins w_final = die raw (draws w + 130)
        /\ shown seg2_pins w_final = die raw (draws w + 131)).
  { intros raw w Hb.
    exists (consume 130 (performs (anim_events raw 50 20 0 (draws w)) w)),
           (consume 132 (performs (cycle_events raw (draws w)) w)).
    split; [rewrite rollDice_run by (unfold INT_MAX; lia); reflexivity|].
    split; [now apply loop_pressed|].
    split; [cbn [draws consume]; now rewrite draws_performs|].
    destruct (animation_shown raw w) as [A1 A2].
    destruct (cycle_shown raw w) as [C1 C2].
    rewrite !shown_consume. repeat split; assumption. }
  split.
  - intros raw w Hb.
    destruct (Hall raw w Hb) as (wa & wf & Ha & Hf & Hd & H1 & H2 & H3 & H4).
    exists wa, wf. rewrite Hd.
    replace (draws w + 130 - 2)%nat with (draws w + 128)%nat by lia.
    replace (draws w + 130 - 1)%nat with (draws w + 129)%nat by lia.
    replace (draws w + 130 + 1)%nat with (draws w + 131)%nat by lia.
    rewrite H3, H4.
    repeat split; try assumption; apply die_range.
  - destruct (Hall raw_count pressed_world (or_introl eq_refl))
      as (wa & wf & Ha & Hf & Hd & H1 & H2 & H3 & H4).
    exists wa, wf. rewrite H1, H3.
    split; [exact Ha|]. split; [exact Hf|]. split; reflexivity.
Qed.

(** * Sample runs *)

Example showNumber_five :
  trace_of (showNumber 5 seg1_pins idle_world)
  = Some [EWrite 3 1; EWrite 4 0; EWrite 5 1].
Proof. vm_compute. reflexivity. Qed.

Example showNumber_minus_one :
  trace_of (showNumber (-1) seg2_pins idle_world)
  = Some [EWrite 8 1; EWrite 9 1; EWrite 10 1].
Proof. vm_compute. reflexivity. Qed.

(** An entry of the pin array outside 0..255 is narrowed on its way to
    [digitalWrite]: 259 drives pin 3. *)
Example showNumber_pin_259 :
  trace_of (showNumber 5 [259; 4; 5] idle_world)
  = Some [EWrite 3 1; EWrite 4 0; EWrite 5 1].
Proof. vm_compute. reflexivity. Qed.

Example showNumber_two_pins :
  showNumber 5 [3; 4] idle_world = Err OutOfBounds.
Proof. reflexivity. Qed.

Example playRollSound_two :
  trace_of (playRollSound raw_count 2 idle_world)
  = Some [ETone 6 500 20; EDelay 20; ETone 6 501 20; EDelay 20; ENoTone 6].
Proof. vm_compute. reflexivity. Qed.

Example rollDice_three :
  trace_of (rollDice raw_count 3 50 idle_world)
  = Some [ENoTone 6;
          EWrite 3 1; EWrite 4 0; EWrite 5 0;
          EWrite 8 0; EWrite 9 1; EWrite 10 0;
          EDelay 50;
          ENoTone 6;
          EWrite 3 1; EWrite 4 1; EWrite 5 0;
          EWrite 8 0; EWrite 9 0; EWrite 10 1;
          EDelay 52;
          ETone 6 504 20; EDelay 20; ENoTone 6;
          EWrite 3 0; EWrite 4 1; EWrite 5 1;
          EWrite 8 1; EWrite 9 0; EWrite 10 0;
          EDelay 54].
Proof. vm_compute. reflexivity. Qed.

Example loop_idle : loop raw_count idle_world = Ok tt idle_world.
Proof. now apply loop_released. Qed.

Example roll_intensity_values :
  map roll_intensity [0; 1; 2; 3; 4; 19; -3] = [0; 0; 1; 1; 2; 9; -1].
Proof. reflexivity. Qed.

(** On the way to [delay] a frame delay that overflows [int] wraps around
    to a negative number, which [delay] takes as an [unsigned long]. *)
Example rollDice_delay_overflow :
  trace_of (rollDice raw_count 2 32767 idle_world)
  = Some [ENoTone 6;
          EWrite 3 1; EWrite 4 0; EWrite 5 0;
          EWrite 8 0; EWrite 9 1; EWrite 10 0;
          EDelay 32767;
          ENoTone 6;
          EWrite 3 1; EWrite 4 1; EWrite 5 0;
          EWrite 8 0; EWrite 9 0; EWrite 10 1;
          EDelay 4294934529].
Proof. vm_compute. reflexivity. Qed.

(** C3 does not hold for every delay: with a single frame and a delay of
    -1 the frame does not pause for [-1 + 0 * 2] milliseconds.  The [int]
    -1 reaches [delay] as the [unsigned long] 4294967295. *)
Lemma rollDice_negative_delay :
  trace_of (rollDice raw_count 1 (-1) idle_world)
  = Some [ENoTone 6;
          EWrite 3 1; EWrite 4 0; EWrite 5 0;
          EWrite 8 0; EWrite 9 1; EWrite 10 0;
          EDelay 4294967295]
  /\ trace_of (rollDice raw_count 1 (-1) idle_world)
     <> Some (trace idle_world
              ++ anim_events raw_count (-1) 1 0 (draws idle_world)).
Proof.
  split.
  - vm_compute. reflexivity.
  - vm_compute. discriminate.
Qed.

(** * Instances *)

Lemma showNumber_writes_bits_at_five :
  1 <= 5 <= 6
  /\ pin_number 3 /\ pin_number 4 /\ pin_number 5
  /\ showNumber 5 [3; 4; 5] idle_world
     = Ok tt (performs [EWrite 3 1; EWrite 4 0; EWrite 5 1] idle_world).
Proof.
  assert (H : 1 <= 5 <= 6) by lia.
  assert (H3 : pin_number 3) by (unfold pin_number; lia).
  assert (H4 : pin_number 4) by (unfold pin_number; lia).
  assert (H5 : pin_number 5) by (unfold pin_number; lia).
  split; [exact H|]. split; [exact H3|]. split; [exact H4|].
  split; [exact H5|].
  exact (proj1 (showNumber_writes_bits 5 3 4 5 idle_world H H3 H4 H5)).
Defined.

Lemma showNumber_out_of_range_at_minus_one :
  ~ (1 <= -1 <= 6)
  /\ pin_number 8 /\ pin_number 9 /\ pin_number 10
  /\ showNumber (-1) [8; 9; 10] idle_world
     = Ok tt (performs [EWrite 8 1; EWrite 9 1; EWrite 10 1] idle_world).
Proof.
  assert (H : ~ (1 <= -1 <= 6)) by lia.
  assert (H8 : pin_number 8) by (unfold pin_number; lia).
  assert (H9 : pin_number 9) by (unfold pin_number; lia).
  assert (H10 : pin_number 10) by (unfold pin_number; lia).
  split; [exact H|]. split; [exact H8|]. split; [exact H9|].
  split; [exact H10|].
  exact (proj1 (showNumber_out_of_range (-1) 8 9 10 idle_world H H8 H9 H10)).
Defined.

Lemma showNumber_touches_only_its_pins_at_seg1 :
  pin_number 3 /\ pin_number 4 /\ pin_number 5
  /\ exists (w' : world) (es : list event),
       showNumber 6 [3; 4; 5] idle_world = Ok tt w'
       /\ trace w' = trace idle_world ++ es
       /\ Forall (fun e => exists p v, e = EWrite p v /\ In p [3; 4; 5]) es
       /\ (forall q, ~ In q [3; 4; 5] ->
           levels w' !! q = levels idle_world !! q)
       /\ inputs w' = inputs idle_world
       /\ draws w' = draws idle_world.
Proof.
  assert (H3 : pin_number 3) by (unfold pin_number; lia).
  assert (H4 : pin_number 4) by (unfold pin_number; lia).
  assert (H5 : pin_number 5) by (unfold pin_number; lia).
  split; [exact H3|]. split; [exact H4|]. split; [exact H5|].
  exact (showNumber_touches_only_its_pins 6 3 4 5 idle_world H3 H4 H5).
Defined.

Lemma playRollSound_tones_at_two :
  0 <= 2 <= INT_MAX
  /\ exists fs : list Z,
       length fs = 2%nat
       /\ Forall (fun f => 500 <= f < 1000) fs
       /\ playRollSound raw_count 2 idle_world
          = Ok tt (consume 2
                     (performs
                        (flat_map (fun f => [ETone buzzerPin f 20; EDelay 20]) fs
                         ++ [ENoTone buzzerPin]) idle_world)).
Proof.
  assert (H : 0 <= 2 <= INT_MAX) by (unfold INT_MAX; lia).
  split; [exact H|].
  exact (proj1 (playRollSound_tones raw_count 2 idle_world H)).
Defined.


Lemma rollDice_animation_at_twenty :
  0 <= 20 <= INT_MAX
  /\ (forall i, 0 <= i < 20 -> 0 <= 50 + i * 2 <= INT_MAX)
  /\ rollDice raw_count 20 50 idle_world
     = Ok tt (consume 130
                (performs (anim_events raw_count 50 20 0 0) idle_world)).
Proof.
  assert (H : 0 <= 20 <= INT_MAX) by (unfold INT_MAX; lia).
  assert (Hd : forall i, 0 <= i < 20 -> 0 <= 50 + i * 2 <= INT_MAX)
    by (unfold INT_MAX; intros i Hi; lia).
  split; [exact H|]. split; [exact Hd|].
  exact (proj1 (rollDice_animation raw_count 20 50 idle_world H Hd)).
Defined.

Lemma rollDice_no_frame_at_minus_three :
  -3 <= 0 /\ rollDice raw_count (-3) 50 idle_world = Ok tt idle_world.
Proof.
  assert (H : -3 <= 0) by lia.
  split; [exact H|].
  exact (rollDice_no_frame raw_count (-3) 50 idle_world H).
Defined.

Lemma loop_runs_one_cycle_at_button1 :
  (inputs pressed_world button1 = false \/ inputs pressed_world button2 = false)
  /\ calls (is_delay_of 300) (cycle_events raw_count (draws pressed_world)) = 1%nat.
Proof.
  assert (H : inputs pressed_world button1 = false
              \/ inputs pressed_world button2 = false)
    by (left; reflexivity).
  split; [exact H|].
  exact (proj1 (proj2 (proj2 (proj2
           (loop_runs_one_cycle raw_count pressed_world H))))).
Defined.

Lemma final_result_is_redrawn_at_button1 :
  (inputs pressed_world button1 = false \/ inputs pressed_world button2 = false)
  /\ exists w_anim w_final : world,
       rollDice raw_count 20 50 pressed_world = Ok tt w_anim
       /\ loop raw_count pressed_world = Ok tt w_final
       /\ draws w_anim = (draws pressed_world + 130)%nat
       /\ shown seg1_pins w_anim = die raw_count (draws w_anim - 2)
       /\ shown seg2_pins w_anim = die raw_count (draws w_anim - 1)
       /\ shown seg1_pins w_final = die raw_count (draws w_anim)
       /\ shown seg2_pins w_final = die raw_count (draws w_anim + 1)
       /\ 1 <= shown seg1_pins w_final <= 6
       /\ 1 <= shown seg2_pins w_final <= 6.
Proof.
  assert (H : inputs pressed_world button1 = false
              \/ inputs pressed_world button2 = false)
    by (left; reflexivity).
  split; [exact H|].
  exact (proj1 final_result_is_redrawn raw_count pressed_world H).
Defined.

(** * Beyond the roll cycle *)

(** ** setup *)

Lemma setup_run (b : board) :
  setup b
  = BOk tt {| modes := setup_modes (modes b);
              analog := analog b;
              seed := if to_ulong (analog b 0) =? 0 then seed b
                      else Some (to_ulong (analog b 0));
              hw := performs setup_events (hw b) |}.
Proof. reflexivity. Qed.

Lemma setup_levels_display (b : board) (p : Z) :
  In p (seg1_pins ++ seg2_pins) ->
  levels (performs setup_events (hw b)) !! p = Some false.
Proof.
  intros Hp. simpl in Hp. unfold setup_events.
  cbn [performs fold_left perform levels].
  destruct Hp as [<-|[<-|[<-|[<-|[<-|[<-|[]]]]]]];
    repeat first [ rewrite lookup_insert_eq; reflexivity
                 | rewrite lookup_insert_ne by discriminate ].
Qed.

Lemma setup_shown (b : board) :
  shown seg1_pins (performs setup_events (hw b)) = 0
  /\ shown seg2_pins (performs setup_events (hw b)) = 0.
Proof.
  unfold shown, seg1_pins, seg2_pins. cbn [fold_right].
  rewrite !setup_levels_display by (simpl; tauto). split; reflexivity.
Qed.

(** X1. [setup] never faults and leaves the six display lines and the
    buzzer configured as outputs and the two buttons as plain inputs (no
    pull-up); the direction of every other pin is untouched. *)
Theorem setup_configures_pins (b : board) :
  exists b' : board,
    setup b = BOk tt b'
    /\ (forall p, In p (seg1_pins ++ seg2_pins) -> modes b' !! p = Some OUTPUT)
    /\ modes b' !! buzzerPin = Some OUTPUT
    /\ modes b' !! button1 = Some INPUT
    /\ modes b' !! button2 = Some INPUT
    /\ (forall q,
          ~ In q (seg1_pins ++ seg2_pins ++ [button1; button2; buzzerPin]) ->
          modes b' !! q = modes b !! q).
Proof.
  eexists. split; [apply setup_run|]. cbn [modes]. unfold setup_modes.
  split.
  { intros p Hp. simpl in Hp.
    destruct Hp as [<-|[<-|[<-|[<-|[<-|[<-|[]]]]]]];
      repeat first [ rewrite lookup_insert_eq; reflexivity
                   | rewrite lookup_insert_ne by discriminate ]. }
  split; [now rewrite lookup_insert_eq|].
  split.
  { rewrite lookup_insert_ne, lookup_insert_ne by discriminate.
    now rewrite lookup_insert_eq. }
  split.
  { rewrite lookup_insert_ne by discriminate. now rewrite lookup_insert_eq. }
  intros q Hq. simpl in Hq.
  repeat (rewrite lookup_insert_ne; [|intros <-; apply Hq; tauto]).
  reflexivity.
Qed.

(** X2. Whatever the lines carried before, [setup] drives the six display
    lines low, so both decoders read 0, and silences the buzzer: seven
    calls in all.  The pins that [setup] does not name (all but the
    display lines, the buttons and the buzzer) keep their level, and
    nothing is drawn from the generator. *)
Theorem setup_clears_displays (b : board) :
  exists b' : board,
    setup b = BOk tt b'
    /\ trace (hw b') = trace (hw b) ++ setup_events
    /\ (forall p, In p (seg1_pins ++ seg2_pins) ->
        levels (hw b') !! p = Some false)
    /\ shown seg1_pins (hw b') = 0
    /\ shown seg2_pins (hw b') = 0
    /\ (forall q,
          ~ In q (seg1_pins ++ seg2_pins ++ [button1; button2; buzzerPin]) ->
          levels (hw b') !! q = levels (hw b) !! q)
    /\ draws (hw b') = draws (hw b).
Proof.
  eexists. split; [apply setup_run|]. cbn [hw].
  split; [apply trace_performs|].
  split; [intros p Hp; now apply setup_levels_display|].
  split; [apply setup_shown|]. split; [apply setup_shown|].
  split.
  { intros q Hq. apply levels_performs_other. simpl in Hq.
    unfold setup_events. cbn [calls is_write_to].
    repeat match goal with
           | |- context [?p =? q] =>
               destruct (Z.eqb_spec p q) as [<-|_]; [exfalso; apply Hq; tauto|]
           end.
    reflexivity. }
  apply draws_performs.
Qed.

(** X3. [setup] seeds the generator with the sample read on analog input
    0; a sample of 0 leaves the generator as it was. *)
Theorem setup_seeds_generator (b : board) :
  exists b' : board,
    setup b = BOk tt b'
    /\ (0 < analog b 0 < 4294967296 -> seed b' = Some (analog b 0))
    /\ (analog b 0 = 0 -> seed b' = seed b).
Proof.
  eexists. split; [apply setup_run|]. cbn [seed]. split.
  - intros Ha. rewrite to_ulong_small by lia.
    destruct (Z.eqb_spec (analog b 0) 0) as [E|E]; [lia|reflexivity].
  - intros Ha. rewrite Ha. reflexivity.
Qed.

Section Polls.

Variable raw : nat -> N.

(** ** Unfolding equations *)

Lemma polls_0 : polls raw 0 = ret tt.
Proof. reflexivity. Qed.

Lemma polls_S (n : nat) : polls raw (S n) = (loop raw ;; polls raw n).
Proof. reflexivity. Qed.

Lemma cycles_events_0 (d : nat) : cycles_events raw 0 d = [].
Proof. reflexivity. Qed.

Lemma cycles_events_S (n d : nat) :
  cycles_events raw (S n) d
  = cycle_events raw d ++ cycles_events raw n (d + 132).
Proof. reflexivity. Qed.

Lemma draws_consume (n : nat) (w : world) :
  draws (consume n w) = (draws w + n)%nat.
Proof. reflexivity. Qed.

Lemma inputs_consume (n : nat) (w : world) :
  inputs (consume n w) = inputs w.
Proof. reflexivity. Qed.

(** ** Calls of the sketch *)

Lemma sketch_call_tone_events (d n : nat) :
  Forall sketch_call (tone_events raw d n).
Proof.
  revert d. induction n as [|n IH]; intros d; [constructor|].
  cbn [tone_events]. constructor.
  - split; [reflexivity|]. left. split; [apply pitch_range | reflexivity].
  - constructor; [simpl; lia | apply IH].
Qed.

Lemma sketch_call_show (n p0 p1 p2 : Z) :
  In p0 (seg1_pins ++ seg2_pins) ->
  In p1 (seg1_pins ++ seg2_pins) ->
  In p2 (seg1_pins ++ seg2_pins) ->
  Forall sketch_call (show_events n [p0; p1; p2]).
Proof.
  intros H0 H1 H2. rewrite show_events_three.
  constructor; [split; [exact H0 | apply (bit_is_0_or_1 n 0)]|].
  constructor; [split; [exact H1 | apply bit_is_0_or_1]|].
  constructor; [split; [exact H2 | apply bit_is_0_or_1]|].
  constructor.
Qed.

Lemma sketch_call_frame (ms i : Z) (d : nat) :
  0 <= ms -> Forall sketch_call (frame_events raw ms i d).
Proof.
  intros Hms. unfold frame_events, roll_sound_events.
  repeat (apply Forall_app; split).
  - apply sketch_call_tone_events.
  - constructor; [reflexivity | constructor].
  - apply sketch_call_show; simpl; tauto.
  - apply sketch_call_show; simpl; tauto.
  - constructor; [exact Hms | constructor].
Qed.

Lemma sketch_call_anim (delayTime : Z) (n : nat) :
  0 <= delayTime ->
  forall (i : Z) (d : nat),
    0 <= i -> Forall sketch_call (anim_events raw delayTime n i d).
Proof.
  intros Hd. induction n as [|n IH]; intros i d Hi; [constructor|].
  cbn [anim_events]. apply Forall_app. split.
  - apply sketch_call_frame. lia.
  - apply IH. lia.
Qed.

Lemma sketch_call_cycle (d : nat) : Forall sketch_call (cycle_events raw d).
Proof.
  unfold cycle_events, stop_sound_events.
  apply Forall_app. split; [apply sketch_call_anim; lia|].
  apply Forall_app. split.
  { constructor; [split; [reflexivity|right; split; reflexivity]|].
    constructor; [simpl; lia|]. constructor; [reflexivity | constructor]. }
  apply Forall_app. split; [apply sketch_call_show; simpl; tauto|].
  apply Forall_app. split; [apply sketch_call_show; simpl; tauto|].
  constructor; [simpl; lia | constructor].
Qed.

Lemma sketch_call_cycles (n : nat) :
  forall d : nat, Forall sketch_call (cycles_events raw n d).
Proof.
  induction n as [|n IH]; intros d; [constructor|].
  rewrite cycles_events_S. apply Forall_app. split;
    [apply sketch_call_cycle | apply IH].
Qed.

(** ** Cycles in a row *)

Lemma cycles_events_snoc (n : nat) :
  forall d : nat,
    cycles_events raw (S n) d
    = cycles_events raw n d ++ cycle_events raw (d + n * 132).
Proof.
  induction n as [|n IH]; intros d.
  - rewrite cycles_events_S, !cycles_events_0, app_nil_r.
    replace (d + 0 * 132)%nat with d by lia. reflexivity.
  - rewrite (cycles_events_S (S n)), IH, (cycles_events_S n), <- app_assoc.
    replace (d + 132 + n * 132)%nat with (d + S n * 132)%nat by lia.
    reflexivity.
Qed.

Lemma calls_cycles (n : nat) :
  forall d : nat,
    calls is_stop_tone (cycles_events raw n d) = n
    /\ calls (is_delay_of 300) (cycles_events raw n d) = n.
Proof.
  induction n as [|n IH]; intros d; [split; reflexivity|].
  rewrite cycles_events_S, !calls_app.
  destruct (IH (d + 132)%nat) as [-> ->].
  destruct (cycle_calls raw d) as (-> & -> & _). split; reflexivity.
Qed.

Lemma writes_cycles (p : Z) (n : nat) :
  In p (seg1_pins ++ seg2_pins) ->
  forall d : nat,
    calls (is_write_to p) (cycles_events raw n d) = (n * 21)%nat.
Proof.
  intros Hp. induction n as [|n IH]; intros d; [reflexivity|].
  rewrite cycles_events_S, calls_app, IH.
  destruct (cycle_calls raw d) as (_ & _ & Hw). rewrite Hw by assumption.
  lia.
Qed.

(** The faces left by a cycle that starts at draw [d]. *)
Lemma cycle_shown_at (d : nat) (w : world) :
  shown seg1_pins (performs (cycle_events raw d) w) = die raw (d + 130)
  /\ shown seg2_pins (performs (cycle_events raw d) w) = die raw (d + 131).
Proof.
  unfold cycle_events. rewrite !performs_app. split.
  - rewrite <- (performs_app (show_events _ seg2_pins)).
    rewrite <- (performs_app (show_events _ seg1_pins)).
    unfold seg1_pins at 1 2.
    rewrite shown_after_show by (reflexivity || lia).
    apply die_mod8.
  - rewrite <- (performs_app (show_events _ seg2_pins)).
    unfold seg2_pins at 1 2.
    rewrite shown_after_show by (reflexivity || lia).
    apply die_mod8.
Qed.

Lemma polls_released (n : nat) (w : world) :
  inputs w button1 = true -> inputs w button2 = true ->
  polls raw n w = Ok tt w.
Proof.
  intros H1 H2. induction n as [|n IH]; [reflexivity|].
  rewrite polls_S. unfold bind at 1. rewrite loop_released by assumption.
  exact IH.
Qed.

Lemma polls_held (n : nat) :
  forall w : world,
    inputs w button1 = false \/ inputs w button2 = false ->
    polls raw n w
    = Ok tt (consume (n * 132)
               (performs (cycles_events raw n (draws w)) w)).
Proof.
  induction n as [|n IH]; intros w Hb.
  - rewrite polls_0, cycles_events_0, Nat.mul_0_l, performs_nil, consume_0.
    reflexivity.
  - rewrite polls_S. unfold bind at 1. rewrite loop_pressed by assumption.
    rewrite IH by (rewrite inputs_consume, inputs_performs; exact Hb).
    rewrite cycles_events_S, draws_consume, draws_performs.
    rewrite performs_consume, consume_consume, performs_app.
    replace (132 + n * 132)%nat with (S n * 132)%nat by lia.
    reflexivity.
Qed.

(** ** Readings that change *)

Lemma polls_reading_S (rd : Z -> bool) (rds : list (Z -> bool)) :
  polls_reading raw (rd :: rds)
  = ((fun w => loop raw (set_inputs rd w)) ;; polls_reading raw rds).
Proof. reflexivity. Qed.

Lemma presses_S (rd : Z -> bool) (rds : list (Z -> bool)) :
  presses (rd :: rds) = ((if pressed rd then 1 else 0) + presses rds)%nat.
Proof. reflexivity. Qed.

Lemma draws_set_inputs (rd : Z -> bool) (w : world) :
  draws (set_inputs rd w) = draws w.
Proof. reflexivity. Qed.

Lemma trace_set_inputs (rd : Z -> bool) (w : world) :
  trace (set_inputs rd w) = trace w.
Proof. reflexivity. Qed.

Lemma pressed_true (rd : Z -> bool) (w : world) :
  pressed rd = true ->
  inputs (set_inputs rd w) button1 = false
  \/ inputs (set_inputs rd w) button2 = false.
Proof.
  unfold pressed. cbn [inputs set_inputs].
  destruct (rd button1); [|now left]. destruct (rd button2); [|now right].
  discriminate.
Qed.

Lemma pressed_false (rd : Z -> bool) (w : world) :
  pressed rd = false ->
  inputs (set_inputs rd w) button1 = true
  /\ inputs (set_inputs rd w) button2 = true.
Proof.
  unfold pressed. cbn [inputs set_inputs].
  destruct (rd button1); [|discriminate]. destruct (rd button2); [|discriminate].
  now split.
Qed.

End Polls.

(** * Further properties *)

Section Further.

Variable raw : nat -> N.

(** X4. A poll leaves the world exactly as it was if and only if both
    buttons read high: no call and no draw without a press, and a press
    always leaves a mark. *)
Theorem loop_untouched_iff_released (w : world) :
  loop raw w = Ok tt w
  <-> inputs w button1 = true /\ inputs w button2 = true.
Proof.
  split.
  - intros Hl.
    destruct (inputs w button1) eqn:E1; destruct (inputs w button2) eqn:E2;
      try (split; reflexivity); exfalso;
      rewrite loop_pressed in Hl by (rewrite ?E1, ?E2; tauto);
      assert (Hw : consume 132 (performs (cycle_events raw (draws w)) w) = w)
        by congruence;
      apply (f_equal draws) in Hw;
      rewrite draws_consume, draws_performs in Hw; lia.
  - intros [H1 H2]. now apply loop_released.
Qed.

(** X5. While a button is held, every poll runs one full cycle: [n] polls
    make the calls of [n] cycles in a row, the [j]-th starting at draw
    [132 * j], with [n] stop tones, [n] pauses of 300 ms and [21 * n]
    writes of every display line. *)
Theorem polls_held_cycles (n : nat) (w : world) :
  inputs w button1 = false \/ inputs w button2 = false ->
  polls raw n w
  = Ok tt (consume (n * 132) (performs (cycles_events raw n (draws w)) w))
  /\ calls is_stop_tone (cycles_events raw n (draws w)) = n
  /\ calls (is_delay_of 300) (cycles_events raw n (draws w)) = n
  /\ (forall p, In p (seg1_pins ++ seg2_pins) ->
      calls (is_write_to p) (cycles_events raw n (draws w)) = (n * 21)%nat).
Proof.
  intros Hb. split; [now apply polls_held|].
  split; [apply calls_cycles|]. split; [apply calls_cycles|].
  intros p Hp. now apply writes_cycles.
Qed.

(** X6. Whatever the buttons read at each poll, and however the readings
    change from one poll to the next, the polls never fault and only make
    calls of these kinds: a write of 0 or 1 to one of the six display
    lines, a tone on the buzzer (500 to 999 Hz for 20 ms, or 200 Hz for
    100 ms), a silencing of the buzzer, a pause.  The button pins and the
    buzzer pin are never written, and there is one cycle (132 draws, one
    pause of 300 ms) for each poll that finds a button low. *)
Theorem polls_calls_disciplined (rds : list (Z -> bool)) (w : world) :
  exists (w' : world) (es : list event),
    polls_reading raw rds w = Ok tt w'
    /\ trace w' = trace w ++ es
    /\ Forall sketch_call es
    /\ calls (is_write_to button1) es = O
    /\ calls (is_write_to button2) es = O
    /\ calls (is_write_to buzzerPin) es = O
    /\ calls (is_delay_of 300) es = presses rds
    /\ draws w' = (draws w + presses rds * 132)%nat.
Proof.
  assert (Hnone : forall es q,
             Forall sketch_call es ->
             ~ In q (seg1_pins ++ seg2_pins) ->
             calls (is_write_to q) es = O).
  { intros es q Hes Hq. induction Hes as [|e es He _ IH]; [reflexivity|].
    cbn [calls]. rewrite IH. destruct e as [p v| | |]; try reflexivity.
    cbn [is_write_to]. destruct (Z.eqb_spec p q) as [->|_]; [|reflexivity].
    destruct He as [Hin _]. contradiction. }
  assert (Hmain : forall rds w,
             exists (w' : world) (es : list event),
               polls_reading raw rds w = Ok tt w'
               /\ trace w' = trace w ++ es
               /\ Forall sketch_call es
               /\ calls (is_delay_of 300) es = presses rds
               /\ draws w' = (draws w + presses rds * 132)%nat).
  { clear w rds. induction rds as [|rd rds IH]; intros w.
    - exists w, []. rewrite app_nil_r. cbn [presses calls].
      repeat split; [constructor | lia].
    - rewrite polls_reading_S. unfold bind at 1.
      destruct (pressed rd) eqn:Ep.
      + rewrite loop_pressed by (now apply pressed_true).
        rewrite draws_set_inputs.
        destruct (IH (consume 132
                        (performs (cycle_events raw (draws w))
                           (set_inputs rd w))))
          as (w' & es & Hrun & Htr & Hes & Hd3 & Hdr).
        exists w', (cycle_events raw (draws w) ++ es).
        split; [exact Hrun|].
        rewrite Htr, Hdr. cbn [trace consume].
        rewrite trace_performs, draws_consume, draws_performs.
        rewrite trace_set_inputs, draws_set_inputs, <- app_assoc.
        split; [reflexivity|].
        split; [apply Forall_app; split; [apply sketch_call_cycle | exact Hes]|].
        rewrite calls_app, Hd3, presses_S, Ep.
        destruct (cycle_calls raw (draws w)) as (_ & -> & _).
        split; lia.
      + rewrite loop_released by (now apply pressed_false).
        destruct (IH (set_inputs rd w)) as (w' & es & Hrun & Htr & Hes & Hd3 & Hdr).
        exists w', es. split; [exact Hrun|].
        rewrite Htr, Hdr, trace_set_inputs, draws_set_inputs, presses_S, Ep.
        split; [reflexivity|]. split; [exact Hes|]. split; [exact Hd3 | lia]. }
  destruct (Hmain rds w) as (w' & es & Hrun & Htr & Hes & Hd3 & Hdr).
  exists w', es.
  split; [exact Hrun|]. split; [exact Htr|]. split; [exact Hes|].
  split; [apply Hnone; [exact Hes | simpl; intuition discriminate]|].
  split; [apply Hnone; [exact Hes | simpl; intuition discriminate]|].
  split; [apply Hnone; [exact Hes | simpl; intuition discriminate]|].
  split; [exact Hd3 | exact Hdr].
Qed.

End Further.

Section Costs.

Variable raw : nat -> N.

(** ** Time spent pausing *)

Lemma paused_app (es1 es2 : list event) :
  paused (es1 ++ es2) = paused es1 + paused es2.
Proof.
  induction es1 as [|e es1 IH]; [reflexivity|].
  rewrite <- app_comm_cons. destruct e; cbn [paused]; rewrite IH; lia.
Qed.

Lemma paused_tone_events (d n : nat) :
  paused (tone_events raw d n) = 20 * Z.of_nat n.
Proof.
  revert d. induction n as [|n IH]; intros d; [reflexivity|].
  cbn [tone_events paused]. rewrite IH. lia.
Qed.

Lemma paused_roll_sound (d n : nat) :
  paused (roll_sound_events raw d n) = 20 * Z.of_nat n.
Proof.
  unfold roll_sound_events. rewrite paused_app, paused_tone_events.
  cbn [paused]. lia.
Qed.

Lemma paused_frame (ms i : Z) (d : nat) :
  paused (frame_events raw ms i d) = 20 * Z.of_nat (sound_count i) + ms.
Proof.
  unfold frame_events. rewrite paused_app, paused_roll_sound.
  unfold seg1_pins, seg2_pins. rewrite !show_events_three.
  cbn [paused app]. lia.
Qed.

Lemma sound_count_of_nat (n : nat) :
  Z.of_nat (sound_count (0 + Z.of_nat n)) = Z.of_nat n / 2.
Proof.
  unfold sound_count. rewrite Z.add_0_l. apply Z2Nat.id.
  apply Z.div_pos; lia.
Qed.

Lemma half_step (z : Z) : (z + 1) / 2 = (z - 1) / 2 + 1.
Proof.
  replace (z + 1) with (z - 1 + 1 * 2) by lia.
  now rewrite Z.div_add by lia.
Qed.

Lemma anim_draws_snoc (n : nat) :
  forall i : Z,
    anim_draws (S n) i = (anim_draws n i + frame_draws (i + Z.of_nat n))%nat.
Proof.
  induction n as [|n IH]; intros i.
  - cbn [anim_draws]. rewrite Z.add_0_r. lia.
  - change (anim_draws (S (S n)) i)
      with (frame_draws i + anim_draws (S n) (i + 1))%nat.
    rewrite IH. cbn [anim_draws].
    replace (i + 1 + Z.of_nat n) with (i + Z.of_nat (S n)) by lia. lia.
Qed.

(** The pauses of [n] frames, and the draws they consume. *)
Lemma anim_cost (delayTime : Z) (n : nat) (d : nat) :
  paused (anim_events raw delayTime n 0 d)
  = Z.of_nat n * delayTime + Z.of_nat n * (Z.of_nat n - 1)
    + 20 * ((Z.of_nat n / 2) * ((Z.of_nat n - 1) / 2))
  /\ Z.of_nat (anim_draws n 0)
     = 2 * Z.of_nat n + (Z.of_nat n / 2) * ((Z.of_nat n - 1) / 2).
Proof.
  induction n as [|n [IHp IHd]]; [split; reflexivity|].
  rewrite anim_events_snoc, paused_app, paused_frame, IHp.
  rewrite anim_draws_snoc, Nat2Z.inj_add, IHd.
  unfold frame_draws. rewrite Nat2Z.inj_add, !sound_count_of_nat.
  rewrite Nat2Z.inj_succ. unfold Z.succ.
  replace (Z.of_nat n + 1 - 1) with (Z.of_nat n) by lia.
  rewrite (half_step (Z.of_nat n)).
  set (q := Z.of_nat n / 2). set (r := (Z.of_nat n - 1) / 2).
  change (Z.of_nat 2) with 2. split; lia.
Qed.

Lemma no_write_roll_sound (d n : nat) :
  Forall (fun e => forall p v, e <> EWrite p v) (roll_sound_events raw d n).
Proof.
  unfold roll_sound_events. apply Forall_app. split.
  - revert d. induction n as [|n IH]; intros d; [constructor|].
    cbn [tone_events]. repeat (constructor; [discriminate|]). apply IH.
  - constructor; [discriminate | constructor].
Qed.

Lemma run_sketch_run (n : nat) (b : board) :
  run_sketch raw n b
  = match polls raw n (performs setup_events (hw b)) with
    | Ok _ w =>
        BOk tt {| modes := setup_modes (modes b);
                  analog := analog b;
                  seed := if to_ulong (analog b 0) =? 0 then seed b
                          else Some (to_ulong (analog b 0));
                  hw := w |}
    | Err f => BErr f
    end.
Proof.
  unfold run_sketch. unfold bbind at 1. rewrite setup_run.
  unfold lift. cbn [hw modes analog seed].
  destruct (polls raw n (performs setup_events (hw b))) as [[] w|f];
    reflexivity.
Qed.

End Costs.

Section Further_costs.

Variable raw : nat -> N.

(** X7. The sketch from power-on: [setup], then [n] polls.  It never
    faults.  With both buttons released nothing but the calls of [setup]
    is made and both displays keep reading 0; with a button held and at
    least one poll, both displays end on a face between 1 and 6 and
    [132 * n] values have been drawn. *)
Theorem run_sketch_displays (n : nat) (b : board) :
  exists b' : board,
    run_sketch raw n b = BOk tt b'
    /\ modes b' = setup_modes (modes b)
    /\ (inputs (hw b) button1 = true -> inputs (hw b) button2 = true ->
        trace (hw b') = trace (hw b) ++ setup_events
        /\ shown seg1_pins (hw b') = 0
        /\ shown seg2_pins (hw b') = 0
        /\ draws (hw b') = draws (hw b))
    /\ (inputs (hw b) button1 = false \/ inputs (hw b) button2 = false ->
        (0 < n)%nat ->
        1 <= shown seg1_pins (hw b') <= 6
        /\ 1 <= shown seg2_pins (hw b') <= 6
        /\ draws (hw b') = (draws (hw b) + n * 132)%nat).
Proof.
  rewrite run_sketch_run.
  set (w0 := performs setup_events (hw b)).
  assert (Hin : inputs w0 = inputs (hw b)) by apply inputs_performs.
  assert (Hdr : draws w0 = draws (hw b)) by apply draws_performs.
  destruct (inputs (hw b) button1) eqn:E1;
    [destruct (inputs (hw b) button2) eqn:E2|].
  - rewrite polls_released by (rewrite Hin; assumption).
    eexists. split; [reflexivity|]. cbn [modes hw].
    split; [reflexivity|]. split.
    + intros _ _. split; [apply trace_performs|].
      split; [apply setup_shown|]. split; [apply setup_shown | exact Hdr].
    + intros [H|H]; discriminate.
  - rewrite polls_held by (rewrite Hin; tauto).
    eexists. split; [reflexivity|]. cbn [modes hw].
    split; [reflexivity|]. split; [intros _ H; discriminate|].
    intros _ Hn. destruct n as [|m]; [lia|].
    rewrite !shown_consume, cycles_events_snoc, performs_app.
    destruct (cycle_shown_at raw (draws w0 + m * 132)
                (performs (cycles_events raw m (draws w0)) w0)) as [-> ->].
    rewrite draws_consume, !draws_performs, Hdr.
    split; [apply die_range|]. split; [apply die_range | reflexivity].
  - rewrite polls_held by (rewrite Hin; tauto).
    eexists. split; [reflexivity|]. cbn [modes hw].
    split; [reflexivity|]. split; [intros H; discriminate|].
    intros _ Hn. destruct n as [|m]; [lia|].
    rewrite !shown_consume, cycles_events_snoc, performs_app.
    destruct (cycle_shown_at raw (draws w0 + m * 132)
                (performs (cycles_events raw m (draws w0)) w0)) as [-> ->].
    rewrite draws_consume, !draws_performs, Hdr.
    split; [apply die_range|]. split; [apply die_range | reflexivity].
Qed.

(** X8. From any world [showResult] never faults, draws exactly two values
    and leaves the first display on the face of the first draw and the
    second display on the face of the second, both between 1 and 6; no
    other output pin changes. *)
Theorem showResult_faces (w : world) :
  exists w' : world,
    showResult raw w = Ok tt w'
    /\ draws w' = (draws w + 2)%nat
    /\ shown seg1_pins w' = die raw (draws w)
    /\ shown seg2_pins w' = die raw (draws w + 1)
    /\ 1 <= shown seg1_pins w' <= 6
    /\ 1 <= shown seg2_pins w' <= 6
    /\ (forall q, ~ In q (seg1_pins ++ seg2_pins) ->
        levels w' !! q = levels w !! q).
Proof.
  eexists. split; [apply showResult_run|].
  rewrite draws_consume, draws_performs, !shown_consume.
  assert (H1 : shown seg1_pins
                 (performs (show_events (die raw (draws w)) seg1_pins
                            ++ show_events (die raw (draws w + 1)) seg2_pins) w)
               = die raw (draws w)).
  { unfold seg1_pins at 1 2.
    rewrite shown_after_show by (reflexivity || lia). apply die_mod8. }
  assert (H2 : shown seg2_pins
                 (performs (show_events (die raw (draws w)) seg1_pins
                            ++ show_events (die raw (draws w + 1)) seg2_pins) w)
               = die raw (draws w + 1)).
  { rewrite performs_app.
    rewrite <- (app_nil_r (show_events _ seg2_pins)).
    unfold seg2_pins at 1 2.
    rewrite shown_after_show by (reflexivity || lia). apply die_mod8. }
  rewrite H1, H2.
  split; [reflexivity|]. split; [reflexivity|]. split; [reflexivity|].
  split; [apply die_range|]. split; [apply die_range|].
  intros q Hq. cbn [levels consume]. apply levels_performs_other.
  simpl in Hq. unfold seg1_pins, seg2_pins.
  rewrite calls_app, !show_events_three. cbn [calls is_write_to].
  repeat match goal with
         | |- context [?p =? q] =>
             destruct (Z.eqb_spec p q) as [<-|_]; [exfalso; apply Hq; tauto|]
         end.
  reflexivity.
Qed.

(** X9. [showNumber] reads the first three entries of the pin array and no
    more: whatever follows them is ignored.  Each entry is an [int] and
    reaches [digitalWrite] narrowed to 8 bits, so the pins written are the
    first three entries modulo 256. *)
Theorem showNumber_ignores_extra_pins (n p0 p1 p2 : Z) (rest : list Z)
    (w : world) :
  showNumber n (p0 :: p1 :: p2 :: rest) w
  = Ok tt (performs [EWrite (to_uint8 p0) (Z.land n 1);
                     EWrite (to_uint8 p1) (Z.land (Z.shiftr n 1) 1);
                     EWrite (to_uint8 p2) (Z.land (Z.shiftr n 2) 1)] w)
  /\ showNumber n (p0 :: p1 :: p2 :: rest) w = showNumber n [p0; p1; p2] w.
Proof.
  assert (H : showNumber n (p0 :: p1 :: p2 :: rest) w
              = showNumber n [p0; p1; p2] w) by reflexivity.
  split; [|exact H]. rewrite H. apply showNumber_run.
Qed.

(** X10. [showNumber] always reads three entries: with an array of fewer
    than three pins it reads past the end of the array. *)
Theorem showNumber_short_array (n : Z) (pins : list Z) (w : world) :
  (length pins < 3)%nat -> showNumber n pins w = Err OutOfBounds.
Proof.
  intros Hl. destruct pins as [|p0 [|p1 [|p2 pins]]]; try reflexivity.
  simpl in Hl. lia.
Qed.

(** X11. With a duration that is zero or negative [playRollSound] sounds no
    tone and draws nothing: its only call silences the buzzer. *)
Theorem playRollSound_nonpositive (k : Z) (w : world) :
  k <= 0 -> playRollSound raw k w = Ok tt (perform (ENoTone buzzerPin) w).
Proof.
  intros Hk. unfold playRollSound, for_int.
  replace (Z.to_nat k) with O by lia.
  cbn [for_loop]. destruct (Z.ltb_spec 0 k) as [Hlt|Hge]; [lia|].
  reflexivity.
Qed.

(** X12. [playRollSound k] pauses for [20 * k] milliseconds in all, draws
    [k] values and leaves every pin other than the buzzer's as it was: both
    displays keep what they showed. *)
Theorem playRollSound_pause (k : Z) (w : world) :
  0 <= k <= INT_MAX ->
  exists (w' : world) (es : list event),
    playRollSound raw k w = Ok tt w'
    /\ trace w' = trace w ++ es
    /\ paused es = 20 * k
    /\ Z.of_nat (draws w') = Z.of_nat (draws w) + k
    /\ (forall q, q <> buzzerPin -> levels w' !! q = levels w !! q)
    /\ shown seg1_pins w' = shown seg1_pins w
    /\ shown seg2_pins w' = shown seg2_pins w.
Proof.
  intros Hk. eexists _, _. split; [now apply playRollSound_run|].
  rewrite draws_consume, draws_performs.
  split; [cbn [trace consume]; apply trace_performs|].
  split; [rewrite paused_roll_sound; lia|].
  split; [lia|].
  assert (Hl : levels
                 (consume (Z.to_nat k)
                    (performs (roll_sound_events raw (draws w) (Z.to_nat k)) w))
               = levels w).
  { cbn [levels consume]. apply levels_performs_no_write.
    apply no_write_roll_sound. }
  split; [intros q _; now rewrite Hl|].
  unfold shown. rewrite Hl. split; reflexivity.
Qed.

(** X13. Under the conditions of C3 the animation pauses for
    [count * delayTime + count * (count - 1) + 20 * (count / 2) * ((count - 1) / 2)]
    milliseconds in all and draws
    [2 * count + (count / 2) * ((count - 1) / 2)] values, whatever the
    values drawn. *)
Theorem rollDice_cost (count delayTime : Z) (w : world) :
  0 <= count <= INT_MAX ->
  (forall i, 0 <= i < count -> 0 <= delayTime + i * 2 <= INT_MAX) ->
  exists (w' : world) (es : list event),
    rollDice raw count delayTime w = Ok tt w'
    /\ trace w' = trace w ++ es
    /\ paused es
       = count * delayTime + count * (count - 1)
         + 20 * ((count / 2) * ((count - 1) / 2))
    /\ Z.of_nat (draws w')
       = Z.of_nat (draws w) + 2 * count + (count / 2) * ((count - 1) / 2).
Proof.
  intros Hc Hd. eexists _, _. split; [now apply rollDice_run|].
  rewrite draws_consume, draws_performs.
  split; [cbn [trace consume]; apply trace_performs|].
  destruct (anim_cost raw delayTime (Z.to_nat count) (draws w)) as [Hp Hn].
  rewrite Z2Nat.id in Hp, Hn by lia.
  split; [exact Hp|]. rewrite Nat2Z.inj_add, Hn. lia.
Qed.

(** X14. A roll cycle makes 350 calls and pauses for 3580 milliseconds in
    all, whatever the values drawn. *)
Theorem cycle_duration (w : world) :
  inputs w button1 = false \/ inputs w button2 = false ->
  exists (w' : world) (es : list event),
    loop raw w = Ok tt w'
    /\ trace w' = trace w ++ es
    /\ length es = 350%nat
    /\ paused es = 3580.
Proof.
  intros Hb. eexists _, _. split; [now apply loop_pressed|].
  split; [cbn [trace consume]; apply trace_performs|].
  split; reflexivity.
Qed.

(** X15. A frame whose delay [delayTime + i * 2] is a negative [int] does
    not return at once: the value reaches [delay] as an [unsigned long],
    so the frame pauses for [4294967296 + delayTime + i * 2] milliseconds,
    more than 49 days. *)
Theorem rollDice_frame_negative_delay (delayTime i : Z) (w : world) :
  0 <= i -> i * 2 <= INT_MAX ->
  INT_MIN <= delayTime + i * 2 < 0 ->
  rollDice_frame raw delayTime i w
  = Ok tt (consume (frame_draws i)
             (performs
                (frame_events raw (4294967296 + delayTime + i * 2) i (draws w))
                w))
  /\ 4294934528 <= 4294967296 + delayTime + i * 2.
Proof.
  unfold INT_MAX, INT_MIN. intros Hi Hmul Hneg.
  rewrite rollDice_frame_run by (unfold INT_MAX; lia).
  assert (Hms : to_ulong (int_add delayTime (int_mul i 2))
                = 4294967296 + delayTime + i * 2).
  { unfold int_add, int_mul.
    rewrite (to_int_small (i * 2)) by (unfold in_int, INT_MIN, INT_MAX; lia).
    rewrite to_int_small by (unfold in_int, INT_MIN, INT_MAX; lia).
    unfold to_ulong.
    rewrite <- (Z_mod_plus_full (delayTime + i * 2) 1 4294967296).
    rewrite Z.mod_small by lia. lia. }
  rewrite Hms. split; [reflexivity | lia].
Qed.

(** X16. Under the conditions of C3 an animation of at least one frame
    leaves both displays on the faces of its last two draws, each between
    1 and 6. *)
Theorem rollDice_leaves_faces (count delayTime : Z) (w : world) :
  1 <= count <= INT_MAX ->
  (forall i, 0 <= i < count -> 0 <= delayTime + i * 2 <= INT_MAX) ->
  exists w' : world,
    rollDice raw count delayTime w = Ok tt w'
    /\ shown seg1_pins w' = die raw (draws w' - 2)
    /\ shown seg2_pins w' = die raw (draws w' - 1)
    /\ 1 <= shown seg1_pins w' <= 6
    /\ 1 <= shown seg2_pins w' <= 6.
Proof.
  intros Hc Hd. eexists. split; [apply rollDice_run; [lia | exact Hd]|].
  destruct (Z.to_nat count) as [|m] eqn:Em; [lia|].
  rewrite !shown_consume, draws_consume, draws_performs.
  rewrite anim_events_snoc, anim_draws_snoc. unfold frame_events, frame_draws.
  set (d := (draws w + anim_draws m 0)%nat).
  set (s := sound_count (0 + Z.of_nat m)).
  replace (draws w + (anim_draws m 0 + (s + 2)) - 2)%nat with (d + s)%nat
    by (unfold d; lia).
  replace (draws w + (anim_draws m 0 + (s + 2)) - 1)%nat with (d + s + 1)%nat
    by (unfold d; lia).
  rewrite !performs_app.
  assert (H1 : forall ms w1,
             shown seg1_pins
               (performs [EDelay ms]
                  (performs (show_events (die raw (d + s + 1)) seg2_pins)
                     (performs (show_events (die raw (d + s)) seg1_pins) w1)))
             = die raw (d + s)).
  { intros ms w1.
    rewrite <- (performs_app (show_events _ seg2_pins)).
    rewrite <- (performs_app (show_events _ seg1_pins)).
    unfold seg1_pins at 1 2.
    rewrite shown_after_show by (reflexivity || lia). apply die_mod8. }
  assert (H2 : forall ms w1,
             shown seg2_pins
               (performs [EDelay ms]
                  (performs (show_events (die raw (d + s + 1)) seg2_pins) w1))
             = die raw (d + s + 1)).
  { intros ms w1.
    rewrite <- (performs_app (show_events _ seg2_pins)).
    unfold seg2_pins at 1 2.
    rewrite shown_after_show by (reflexivity || lia). apply die_mod8. }
  rewrite H1, H2.
  split; [reflexivity|]. split; [reflexivity|].
  split; apply die_range.
Qed.

End Further_costs.

(** * Further instances *)

Lemma setup_seeds_generator_at_cold_board :
  0 < analog cold_board 0 < 4294967296
  /\ exists b' : board, setup cold_board = BOk tt b' /\ seed b' = Some 417.
Proof.
  assert (H : 0 < analog cold_board 0 < 4294967296)
    by (change (analog cold_board 0) with 417; lia).
  split; [exact H|].
  destruct (setup_seeds_generator cold_board) as (b' & Hrun & Hseed & _).
  exists b'. split; [exact Hrun | exact (Hseed H)].
Defined.

Lemma polls_held_cycles_at_two :
  (inputs pressed_world button1 = false \/ inputs pressed_world button2 = false)
  /\ polls raw_count 2 pressed_world
     = Ok tt (consume 264
                (performs (cycle_events raw_count 0 ++ cycle_events raw_count 132)
                   pressed_world)).
Proof.
  assert (H : inputs pressed_world button1 = false
              \/ inputs pressed_world button2 = false)
    by (left; reflexivity).
  split; [exact H|].
  pose proof (proj1 (polls_held_cycles raw_count 2 pressed_world H)) as Hp.
  rewrite Hp. cbn [cycles_events]. rewrite app_nil_r. reflexivity.
Defined.

Lemma run_sketch_displays_at_boards :
  (inputs (hw cold_board) button1 = true
   /\ inputs (hw cold_board) button2 = true
   /\ exists b' : board,
        run_sketch raw_count 3 cold_board = BOk tt b'
        /\ shown seg1_pins (hw b') = 0
        /\ shown seg2_pins (hw b') = 0)
  /\ ((inputs (hw pressed_board) button1 = false
       \/ inputs (hw pressed_board) button2 = false)
      /\ (0 < 1)%nat
      /\ exists b' : board,
           run_sketch raw_count 1 pressed_board = BOk tt b'
           /\ 1 <= shown seg1_pins (hw b') <= 6
           /\ 1 <= shown seg2_pins (hw b') <= 6).
Proof.
  split.
  - split; [reflexivity|]. split; [reflexivity|].
    destruct (run_sketch_displays raw_count 3 cold_board)
      as (b' & Hrun & _ & Hidle & _).
    destruct (Hidle eq_refl eq_refl) as (_ & H1 & H2 & _).
    exists b'. split; [exact Hrun|]. split; [exact H1 | exact H2].
  - assert (H : inputs (hw pressed_board) button1 = false
                \/ inputs (hw pressed_board) button2 = false)
      by (right; reflexivity).
    assert (Hn : (0 < 1)%nat) by lia.
    split; [exact H|]. split; [exact Hn|].
    destruct (run_sketch_displays raw_count 1 pressed_board)
      as (b' & Hrun & _ & _ & Hheld).
    destruct (Hheld H Hn) as (H1 & H2 & _).
    exists b'. split; [exact Hrun|]. split; [exact H1 | exact H2].
Defined.

Lemma showNumber_short_array_at_two_pins :
  (length [3; 4] < 3)%nat /\ showNumber 5 [3; 4] idle_world = Err OutOfBounds.
Proof.
  assert (H : (length [3; 4] < 3)%nat) by (simpl; lia).
  split; [exact H|].
  exact (showNumber_short_array 5 [3; 4] idle_world H).
Defined.

Lemma playRollSound_nonpositive_at_minus_two :
  -2 <= 0
  /\ playRollSound raw_count (-2) idle_world
     = Ok tt (perform (ENoTone buzzerPin) idle_world).
Proof.
  assert (H : -2 <= 0) by lia.
  split; [exact H|].
  exact (playRollSound_nonpositive raw_count (-2) idle_world H).
Defined.

Lemma playRollSound_pause_at_three :
  0 <= 3 <= INT_MAX
  /\ exists (w' : world) (es : list event),
       playRollSound raw_count 3 idle_world = Ok tt w'
       /\ trace w' = trace idle_world ++ es
       /\ paused es = 60
       /\ Z.of_nat (draws w') = Z.of_nat (draws idle_world) + 3
       /\ (forall q, q <> buzzerPin ->
           levels w' !! q = levels idle_world !! q)
       /\ shown seg1_pins w' = shown seg1_pins idle_world
       /\ shown seg2_pins w' = shown seg2_pins idle_world.
Proof.
  assert (H : 0 <= 3 <= INT_MAX) by (unfold INT_MAX; lia).
  split; [exact H|].
  exact (playRollSound_pause raw_count 3 idle_world H).
Defined.

Lemma rollDice_cost_at_twenty :
  0 <= 20 <= INT_MAX
  /\ (forall i, 0 <= i < 20 -> 0 <= 50 + i * 2 <= INT_MAX)
  /\ exists (w' : world) (es : list event),
       rollDice raw_count 20 50 idle_world = Ok tt w'
       /\ trace w' = trace idle_world ++ es
       /\ paused es = 3180
       /\ Z.of_nat (draws w') = Z.of_nat (draws idle_world) + 130.
Proof.
  assert (H : 0 <= 20 <= INT_MAX) by (unfold INT_MAX; lia).
  assert (Hd : forall i, 0 <= i < 20 -> 0 <= 50 + i * 2 <= INT_MAX)
    by (unfold INT_MAX; intros i Hi; lia).
  split; [exact H|]. split; [exact Hd|].
  exact (rollDice_cost raw_count 20 50 idle_world H Hd).
Defined.

Lemma cycle_duration_at_button1 :
  (inputs pressed_world button1 = false \/ inputs pressed_world button2 = false)
  /\ exists (w' : world) (es : list event),
       loop raw_count pressed_world = Ok tt w'
       /\ trace w' = trace pressed_world ++ es
       /\ length es = 350%nat
       /\ paused es = 3580.
Proof.
  assert (H : inputs pressed_world button1 = false
              \/ inputs pressed_world button2 = false)
    by (left; reflexivity).
  split; [exact H|].
  exact (cycle_duration raw_count pressed_world H).
Defined.

Lemma rollDice_frame_negative_delay_at_minus_one :
  0 <= 0 /\ 0 * 2 <= INT_MAX /\ INT_MIN <= -1 + 0 * 2 < 0
  /\ rollDice_frame raw_count (-1) 0 idle_world
     = Ok tt (consume 2
                (performs (frame_events raw_count 4294967295 0 0) idle_world)).
Proof.
  assert (H0 : 0 <= 0) by lia.
  assert (H1 : 0 * 2 <= INT_MAX) by (unfold INT_MAX; lia).
  assert (H2 : INT_MIN <= -1 + 0 * 2 < 0) by (unfold INT_MIN; lia).
  split; [exact H0|]. split; [exact H1|]. split; [exact H2|].
  exact (proj1 (rollDice_frame_negative_delay raw_count (-1) 0 idle_world
                  H0 H1 H2)).
Defined.

Lemma rollDice_leaves_faces_at_three :
  1 <= 3 <= INT_MAX
  /\ (forall i, 0 <= i < 3 -> 0 <= 50 + i * 2 <= INT_MAX)
  /\ exists w' : world,
       rollDice raw_count 3 50 idle_world = Ok tt w'
       /\ shown seg1_pins w' = die raw_count (draws w' - 2)
       /\ shown seg2_pins w' = die raw_count (draws w' - 1)
       /\ 1 <= shown seg1_pins w' <= 6
       /\ 1 <= shown seg2_pins w' <= 6.
Proof.
  assert (H : 1 <= 3 <= INT_MAX) by (unfold INT_MAX; lia).
  assert (Hd : forall i, 0 <= i < 3 -> 0 <= 50 + i * 2 <= INT_MAX)
    by (unfold INT_MAX; intros i Hi; lia).
  split; [exact H|]. split; [exact Hd|].
  exact (rollDice_leaves_faces raw_count 3 50 idle_world H Hd).
Defined.

(** A press, a release and a press again: two cycles. *)
Example polls_press_release_press :
  match polls_reading raw_count
          [inputs pressed_world; inputs idle_world; inputs pressed_world]
          idle_world with
  | Ok _ w => (draws w, length (trace w))
  | Err _ => (O, O)
  end = (264%nat, 700%nat).
Proof. vm_compute. reflexivity. Qed.
